(** * integration-steam: protocol session layer, checked against its specification

    A shallow embedding of the parts of the Steam integration plugin that its
    specification makes claims about:

    - [steam_network/protocol_client.py] and [protocol/protocol_client.py]:
      [translate_error], [to_UserAction], the login reply handlers, the
      relationship handler and the license import handler;
    - [plugin.py]: [get_game_time] and [get_unlocked_achievements];
    - [steam_network/w3_hack.py]: [does_witcher_3_dlcs_set_resolve_to_GOTY];
    - [user_profile.py]: the public-profile checks.

    Python dicts and sets are stdpp [gmap]s and [gset]s, integers are [Z] or
    [N], exceptions are values of [PyExc] carried by [outcome], and every
    request handed to a collaborator is appended to an explicit log. *)

From Stdlib Require Import ZArith Ascii.
From stdpp Require Import base decidable option list gmap strings pretty.

#[local] Set Warnings "-clear-no-such-hyp".

Open Scope string_scope.
Open Scope list_scope.
Open Scope Z_scope.

(** ** Exceptions and results *)

(** The error taxonomy of [galaxy.api.errors] that [translate_error] uses. *)
Inductive ApiErrorKind :=
  | InvalidCredentials
  | NetworkError
  | BackendNotAvailable
  | BackendTimeout
  | TemporaryBlocked
  | Banned
  | AccessDenied
  | BackendError
  | UnknownError.

Definition taxonomy : list ApiErrorKind :=
  [ InvalidCredentials; NetworkError; BackendNotAvailable; BackendTimeout;
    TemporaryBlocked; Banned; AccessDenied; BackendError; UnknownError ].

#[global] Instance ApiErrorKind_eq_dec : EqDecision ApiErrorKind.
Proof. solve_decision. Defined.

(** A galaxy error object: its class and the [data = {"result": result}]
    dictionary it is built with. *)
Record GalaxyError := mkGalaxyError {
  error_kind : ApiErrorKind;
  error_result : Z
}.

#[global] Instance GalaxyError_eq_dec : EqDecision GalaxyError.
Proof. solve_decision. Defined.

(** The Python exceptions the embedded code can raise. [CollaboratorError]
    stands for whatever an external collaborator (HTTP client, XML parser,
    backend) raises; its payload only tells failures apart. *)
Inductive PyExc :=
  | AssertionError
  | AttributeError
  | InvalidStateError
  | ValueError (message : string)
  | GalaxyException (e : GalaxyError)
  | ProfileDoesNotExist
  | ProfileIsNotPublic
  | ParseError
  | NotPublicGameDetailsOrUserHasNoGames
  | CollaboratorError (tag : Z).

#[global] Instance PyExc_eq_dec : EqDecision PyExc.
Proof. solve_decision. Defined.

(** What a call does: it returns a value or raises. *)
Inductive outcome (A : Type) :=
  | Return (a : A)
  | Raise (e : PyExc).
Arguments Return {A} a.
Arguments Raise {A} e.

#[global] Instance outcome_ret : MRet outcome := λ A a, Return a.
#[global] Instance outcome_bind : MBind outcome := λ A B k m,
  match m with
  | Return a => k a
  | Raise e => Raise e
  end.

(** Python's [assert b]. *)
Definition py_assert (b : bool) : outcome unit :=
  if b then Return () else Raise AssertionError.

(** [asyncio.Future]: pending, or done with a result. [set_result] on a
    future that is already done raises [InvalidStateError]. *)
Inductive Future (A : Type) :=
  | Pending
  | Done (result : A).
Arguments Pending {A}.
Arguments Done {A} result.

Definition set_result {A} (fut : Future A) (v : A) : outcome (Future A) :=
  match fut with
  | Pending => Return (Done v)
  | Done _ => Raise InvalidStateError
  end.

(** ** [protocol/consts.py]: result codes *)

(** [protocol/consts.py] is not among the sources. [EResult] is an integer
    enumeration; the code below only names some of its members, so the
    numeric value of each named member is a field of this interface and a
    result code is any integer. *)
Class EResultCodes := {
  EResult_OK : Z;
  EResult_InvalidPassword : Z;
  EResult_AccountNotFound : Z;
  EResult_InvalidSteamID : Z;
  EResult_InvalidLoginAuthCode : Z;
  EResult_AccountLogonDeniedNoMailSent : Z;
  EResult_AccountLoginDeniedNeedTwoFactor : Z;
  EResult_TwoFactorCodeMismatch : Z;
  EResult_TwoFactorActivationCodeMismatch : Z;
  EResult_ConnectFailed : Z;
  EResult_IOFailure : Z;
  EResult_RemoteDisconnect : Z;
  EResult_Busy : Z;
  EResult_ServiceUnavailable : Z;
  EResult_Pending : Z;
  EResult_IPNotFound : Z;
  EResult_TryAnotherCM : Z;
  EResult_Cancelled : Z;
  EResult_Timeout : Z;
  EResult_RateLimitExceeded : Z;
  EResult_LimitExceeded : Z;
  EResult_Suspended : Z;
  EResult_AccountLocked : Z;
  EResult_AccountLogonDeniedVerifiedEmailRequired : Z;
  EResult_Banned : Z;
  EResult_AccessDenied : Z;
  EResult_InsufficientPrivilege : Z;
  EResult_LogonSessionReplaced : Z;
  EResult_Blocked : Z;
  EResult_Ignored : Z;
  EResult_AccountDisabled : Z;
  EResult_AccountNotFeatured : Z;
  EResult_DataCorruption : Z;
  EResult_DiskFull : Z;
  EResult_RemoteCallFailed : Z;
  EResult_RemoteFileConflict : Z;
  EResult_BadResponse : Z
}.

(** The values of Steam's public [EResult] enumeration for the members named
    above. They serve to run the handlers on concrete replies; no general
    theorem depends on them. *)
Definition steam_eresult : EResultCodes := {|
  EResult_OK := 1;
  EResult_InvalidPassword := 5;
  EResult_AccountNotFound := 18;
  EResult_InvalidSteamID := 19;
  EResult_InvalidLoginAuthCode := 65;
  EResult_AccountLogonDeniedNoMailSent := 66;
  EResult_AccountLoginDeniedNeedTwoFactor := 85;
  EResult_TwoFactorCodeMismatch := 88;
  EResult_TwoFactorActivationCodeMismatch := 89;
  EResult_ConnectFailed := 35;
  EResult_IOFailure := 37;
  EResult_RemoteDisconnect := 38;
  EResult_Busy := 10;
  EResult_ServiceUnavailable := 20;
  EResult_Pending := 22;
  EResult_IPNotFound := 31;
  EResult_TryAnotherCM := 48;
  EResult_Cancelled := 52;
  EResult_Timeout := 16;
  EResult_RateLimitExceeded := 84;
  EResult_LimitExceeded := 25;
  EResult_Suspended := 51;
  EResult_AccountLocked := 73;
  EResult_AccountLogonDeniedVerifiedEmailRequired := 74;
  EResult_Banned := 17;
  EResult_AccessDenied := 15;
  EResult_InsufficientPrivilege := 24;
  EResult_LogonSessionReplaced := 34;
  EResult_Blocked := 40;
  EResult_Ignored := 41;
  EResult_AccountDisabled := 43;
  EResult_AccountNotFeatured := 45;
  EResult_DataCorruption := 53;
  EResult_DiskFull := 54;
  EResult_RemoteCallFailed := 55;
  EResult_RemoteFileConflict := 60;
  EResult_BadResponse := 76
|}.

(** ** [translate_error]

    The two protocol clients carry the same text of this function
    ([steam_network/protocol_client.py] lines 76-138 and
    [protocol/protocol_client.py] lines 20-82). *)

(** Python's [x in (a, b, ...)] on integers. *)
Definition py_in (x : Z) (t : list Z) : bool := bool_decide (x ∈ t).

Section translate_error.
Context `{EResultCodes}.

Definition invalid_credentials_codes : list Z :=
  [ EResult_InvalidPassword; EResult_AccountNotFound; EResult_InvalidSteamID;
    EResult_InvalidLoginAuthCode; EResult_AccountLogonDeniedNoMailSent;
    EResult_AccountLoginDeniedNeedTwoFactor; EResult_TwoFactorCodeMismatch;
    EResult_TwoFactorActivationCodeMismatch ].

Definition network_error_codes : list Z :=
  [ EResult_ConnectFailed; EResult_IOFailure; EResult_RemoteDisconnect ].

Definition backend_not_available_codes : list Z :=
  [ EResult_Busy; EResult_ServiceUnavailable; EResult_Pending;
    EResult_IPNotFound; EResult_TryAnotherCM; EResult_Cancelled ].

Definition temporary_blocked_codes : list Z :=
  [ EResult_RateLimitExceeded; EResult_LimitExceeded; EResult_Suspended;
    EResult_AccountLocked; EResult_AccountLogonDeniedVerifiedEmailRequired ].

Definition access_denied_codes : list Z :=
  [ EResult_AccessDenied; EResult_InsufficientPrivilege;
    EResult_LogonSessionReplaced; EResult_Blocked; EResult_Ignored;
    EResult_AccountDisabled; EResult_AccountNotFeatured ].

Definition backend_error_codes : list Z :=
  [ EResult_DataCorruption; EResult_DiskFull; EResult_RemoteCallFailed;
    EResult_RemoteFileConflict; EResult_BadResponse ].

Definition translate_error (result : Z) : outcome GalaxyError :=
  _ ← py_assert (negb (result =? EResult_OK));
  let data := result in
  if py_in result invalid_credentials_codes then
    Return (mkGalaxyError InvalidCredentials data)
  else if py_in result network_error_codes then
    Return (mkGalaxyError NetworkError data)
  else if py_in result backend_not_available_codes then
    Return (mkGalaxyError BackendNotAvailable data)
  else if result =? EResult_Timeout then
    Return (mkGalaxyError BackendTimeout data)
  else if py_in result temporary_blocked_codes then
    Return (mkGalaxyError TemporaryBlocked data)
  else if result =? EResult_Banned then
    Return (mkGalaxyError Banned data)
  else if py_in result access_denied_codes then
    Return (mkGalaxyError AccessDenied data)
  else if py_in result backend_error_codes then
    Return (mkGalaxyError BackendError data)
  else
    Return (mkGalaxyError UnknownError data).

(** Every code that one of the branches of [translate_error] names. *)
Definition listed_codes : list Z :=
  invalid_credentials_codes ++ network_error_codes
  ++ backend_not_available_codes ++ [EResult_Timeout]
  ++ temporary_blocked_codes ++ [EResult_Banned]
  ++ access_denied_codes ++ backend_error_codes.

(** [raise translate_error(result)]: the assertion failure inside
    [translate_error] propagates, otherwise the translated error is
    raised. *)
Definition raise_translate_error {A} (result : Z) : outcome A :=
  e ← translate_error result; Raise (GalaxyException e).
End translate_error.

(** ** [steam_network/protocol_client.py]: the outcome of a login attempt *)

Inductive UserActionRequired :=
  | NoActionRequired
  | EmailTwoFactorInputRequired
  | PhoneTwoFactorInputRequired
  | PhoneTwoFactorConfirmRequired
  | PasswordRequired
  | InvalidAuthData.

#[global] Instance UserActionRequired_eq_dec : EqDecision UserActionRequired.
Proof. solve_decision. Defined.

(** Modelled from the spec: the protobuf module that declares the guard
    types of [CAuthentication_AllowedConfirmation] is not among the
    sources. The spec's glossary describes a guard type as "the out-of-band
    proof the server demands before completing login (email code, device
    code, device confirmation)"; the members are those that [to_UserAction]
    and its comment name. *)
Inductive EAuthSessionGuardType :=
  | k_EAuthSessionGuardType_Unknown
  | k_EAuthSessionGuardType_None
  | k_EAuthSessionGuardType_EmailCode
  | k_EAuthSessionGuardType_DeviceCode
  | k_EAuthSessionGuardType_DeviceConfirmation
  | k_EAuthSessionGuardType_EmailConfirmation
  | k_EAuthSessionGuardType_MachineToken
  | k_EAuthSessionGuardType_LegacyMachineAuth.

#[global] Instance EAuthSessionGuardType_eq_dec : EqDecision EAuthSessionGuardType.
Proof. solve_decision. Defined.

Definition to_UserAction (auth_enum : EAuthSessionGuardType) : UserActionRequired :=
  if decide (auth_enum = k_EAuthSessionGuardType_None) then
    NoActionRequired
  else if decide (auth_enum = k_EAuthSessionGuardType_EmailCode) then
    EmailTwoFactorInputRequired
  else if decide (auth_enum = k_EAuthSessionGuardType_DeviceCode) then
    PhoneTwoFactorInputRequired
  else if decide (auth_enum = k_EAuthSessionGuardType_DeviceConfirmation) then
    PhoneTwoFactorConfirmRequired
  else
    InvalidAuthData.

(** [CAuthentication_BeginAuthSessionViaCredentials_Response], the fields
    the handler reads. [request_id], [interval] and
    [extended_error_message] are passed through unchanged. *)
Record BeginAuthSessionResponse := {
  client_id : Z;
  steamid : Z;
  request_id : string;
  interval : Z;
  allowed_confirmations : list EAuthSessionGuardType;
  extended_error_message : string
}.

Record SteamPollingData := mkSteamPollingData {
  polling_client_id : Z;
  polling_steamid : Z;
  polling_request_id : string;
  polling_interval : Z;
  polling_auth_method : UserActionRequired;
  polling_error_message : string
}.

(** The loop of [_login_handler] over [message.allowed_confirmations];
    [auth_method] is the loop-carried variable. The device code branch
    leaves the loop ([break]). *)
Fixpoint allowed_confirmations_loop (auth_method : UserActionRequired)
    (allowed : list EAuthSessionGuardType) : UserActionRequired :=
  match allowed with
  | [] => auth_method
  | a :: rest =>
      let action := to_UserAction a in
      if decide (action = PhoneTwoFactorInputRequired) then
        action
      else if decide (action = EmailTwoFactorInputRequired) then
        allowed_confirmations_loop action rest
      else if bool_decide (action = PhoneTwoFactorConfirmRequired)
              && bool_decide (auth_method ≠ EmailTwoFactorInputRequired) then
        allowed_confirmations_loop action rest
      else if bool_decide (action = NoActionRequired)
              && bool_decide (auth_method = InvalidAuthData) then
        allowed_confirmations_loop action rest
      else
        allowed_confirmations_loop auth_method rest
  end.

(** The order of the specification, "DeviceCodeRequired >
    EmailCodeRequired > DeviceConfirmationRequired > NoActionRequired", as a
    rank; the two outcomes that no guard type stands for rank lowest. *)
Definition priority (action : UserActionRequired) : nat :=
  match action with
  | PhoneTwoFactorInputRequired => 4
  | EmailTwoFactorInputRequired => 3
  | PhoneTwoFactorConfirmRequired => 2
  | NoActionRequired => 1
  | PasswordRequired | InvalidAuthData => 0
  end.

(** The rule of the specification, stated on the guard types that a reply
    offers: the challenge of the strongest guard type in the list, in the
    order device code > email code > device confirmation > none, and
    [InvalidAuthData] when the list offers none of the four. *)
Definition highest_priority_challenge (allowed : list EAuthSessionGuardType)
    : UserActionRequired :=
  if bool_decide (k_EAuthSessionGuardType_DeviceCode ∈ allowed) then
    PhoneTwoFactorInputRequired
  else if bool_decide (k_EAuthSessionGuardType_EmailCode ∈ allowed) then
    EmailTwoFactorInputRequired
  else if bool_decide (k_EAuthSessionGuardType_DeviceConfirmation ∈ allowed) then
    PhoneTwoFactorConfirmRequired
  else if bool_decide (k_EAuthSessionGuardType_None ∈ allowed) then
    NoActionRequired
  else
    InvalidAuthData.

(** The part of [ProtocolClient] that [_login_handler] reads and writes:
    [_user_info_cache.steam_id] and the single login future slot. *)
Record LoginState := mkLoginState {
  user_info_steam_id : option Z;
  _login_future : option (Future (Z * option SteamPollingData))
}.

Section login_handler.
Context `{EResultCodes}.

(** [ProtocolClient._login_handler] (steam_network). The state it
    leaves behind is returned next to the outcome, since the steam id is
    stored before the handler can raise. *)
Definition _login_handler (self : LoginState) (result : Z)
    (message : BeginAuthSessionResponse) : LoginState * outcome unit :=
  let '(self, data) :=
    if result =? EResult_OK then
      let self :=
        if decide (user_info_steam_id self ≠ Some (steamid message))
        then mkLoginState (Some (steamid message)) (_login_future self)
        else self in
      let auth_method :=
        allowed_confirmations_loop InvalidAuthData (allowed_confirmations message) in
      (self,
       Some (mkSteamPollingData (client_id message) (steamid message)
               (request_id message) (interval message) auth_method
               (extended_error_message message)))
    else (self, None) in
  match _login_future self with
  | Some fut =>
      match set_result fut (result, data) with
      | Return fut' => (mkLoginState (user_info_steam_id self) (Some fut'), Return ())
      | Raise e => (self, Raise e)
      end
  | None => (self, raise_translate_error result)
  end.
End login_handler.

(** ** [protocol/protocol_client.py]: the older login reply handler *)

Module Legacy.
(** [ProtocolClient._log_on_handler]: the future slot carries the bare
    result code. With the slot empty the assertion fails. *)
Definition _log_on_handler (_login_future : option (Future Z)) (result : Z)
    : option (Future Z) * outcome unit :=
  match _login_future with
  | None => (None, Raise AssertionError)
  | Some fut =>
      match set_result fut result with
      | Return fut' => (Some fut', Return ())
      | Raise e => (Some fut, Raise e)
      end
  end.
End Legacy.

(** ** Requests handed to [_protobuf_client]

    The handlers below never wait for a reply: each call on the protobuf
    client is recorded, in order, in a log of sent requests. *)

(** A license as [_license_import_handler] sees it:
    [steam_license.license.package_id] and the rest of the entitlement. *)
Record ProtoLicense := { package_id : N; entitlement : Z }.
Record SteamLicense := { license : ProtoLicense; shared : bool }.

Inductive Request :=
  | set_persona_state_Invisible
  | get_friends_statuses
  | get_user_infos (users : list Z) (flags : Z)
  | get_packages_info (steam_licenses : list SteamLicense).

Definition _STATUS_FLAG : Z := 1106.

(** ** Relationships *)

(** Modelled from the spec: [protocol/consts.py], which declares
    [EFriendRelationship], is not among the sources. The spec speaks of the
    relationships "Friend" and "None" and of "any other relationship"; the
    handler names the first two, and every other member is kept by its
    numeric code. *)
Inductive EFriendRelationship :=
  | EFriendRelationship_None_
  | EFriendRelationship_Friend
  | EFriendRelationship_Other (code : Z).

#[global] Instance EFriendRelationship_eq_dec : EqDecision EFriendRelationship.
Proof. solve_decision. Defined.

(** ** The friends cache *)

(** Modelled from the spec: [friends_cache.py] is not among the sources.
    The spec describes a cache that "supports full reset (initial
    relationship snapshot) and incremental add/remove"; it is modelled as
    the set of user ids it holds, leaving out names and presence. *)
Abbreviation FriendsCache := (gset Z).

Module FriendsCache.
Definition add (cache : FriendsCache) (user_id : Z) : FriendsCache :=
  cache ∪ {[ user_id ]}.
Definition remove (cache : FriendsCache) (user_id : Z) : FriendsCache :=
  cache ∖ {[ user_id ]}.
Definition reset (cache : FriendsCache) (user_ids : list Z) : FriendsCache :=
  list_to_set user_ids.
End FriendsCache.

(** ** [_relationship_handler]

    Both protocol clients carry the same text
    ([steam_network/protocol_client.py] lines 375-399 and
    [protocol/protocol_client.py] lines 222-246). *)

Record RelationshipState := mkRelationshipState {
  _friends_cache : FriendsCache;
  friends_sent : list Request
}.

(** The variables of the [for] loop over [friends.items()]. *)
Record RelationshipLoop := mkRelationshipLoop {
  loop_cache : FriendsCache;
  initial_friends : list Z;
  new_friends : list Z
}.

(** The loop body runs once per item, in the order of the dict; a failed
    [assert incremental] leaves the loop with what was done so far. *)
Fixpoint relationship_loop (incremental : bool)
    (items : list (Z * EFriendRelationship)) (st : RelationshipLoop)
    : RelationshipLoop * outcome unit :=
  match items with
  | [] => (st, Return ())
  | (user_id, relationship) :: rest =>
      if decide (relationship = EFriendRelationship_Friend) then
        if incremental then
          relationship_loop incremental rest
            (mkRelationshipLoop (FriendsCache.add (loop_cache st) user_id)
               (initial_friends st) (new_friends st ++ [user_id]))
        else
          relationship_loop incremental rest
            (mkRelationshipLoop (loop_cache st)
               (initial_friends st ++ [user_id]) (new_friends st))
      else if decide (relationship = EFriendRelationship_None_) then
        if incremental then
          relationship_loop incremental rest
            (mkRelationshipLoop (FriendsCache.remove (loop_cache st) user_id)
               (initial_friends st) (new_friends st))
        else (st, Raise AssertionError)
      else relationship_loop incremental rest st
  end.

Definition _relationship_handler (self : RelationshipState) (incremental : bool)
    (friends : list (Z * EFriendRelationship)) : RelationshipState * outcome unit :=
  match relationship_loop incremental friends
          (mkRelationshipLoop (_friends_cache self) [] []) with
  | (st, Raise e) => (mkRelationshipState (loop_cache st) (friends_sent self), Raise e)
  | (st, Return _) =>
      let self := mkRelationshipState (loop_cache st) (friends_sent self) in
      let self :=
        if negb incremental then
          mkRelationshipState
            (FriendsCache.reset (_friends_cache self) (initial_friends st))
            (friends_sent self
               ++ [ set_persona_state_Invisible; get_friends_statuses;
                    get_user_infos (initial_friends st) _STATUS_FLAG ])
        else self in
      let self :=
        if bool_decide (new_friends st ≠ []) then
          mkRelationshipState (_friends_cache self)
            (friends_sent self
               ++ [ get_friends_statuses;
                    get_user_infos (new_friends st) _STATUS_FLAG ])
        else self in
      (self, Return ())
  end.

(** ** The license and package cache *)

(** Python's [str] on a package identifier. *)
Definition str (n : N) : string := pretty n.

(** Modelled from the spec: [games_cache.py] is not among the sources. The
    spec says that a package "resolves to zero or more app (game)
    identifiers", that it is "resolved once it has at least one associated
    app", that a full resync "clear[s] all app/package associations" and
    "mark[s] every package in the batch as importing". The cache is
    modelled as the map from each package that is being imported to the set
    of apps associated with it so far. *)
Abbreviation GamesCache := (gmap string (gset string)).

Module GamesCache.
Definition get_package_ids (cache : GamesCache) : gset string := dom cache.

Definition get_resolved_packages (cache : GamesCache) : gset string :=
  dom (filter (λ kv, kv.2 ≠ ∅) cache).

Definition reset_storing_map (cache : GamesCache) : GamesCache := ∅.

Definition start_packages_import (cache : GamesCache)
    (steam_licenses : list SteamLicense) : GamesCache :=
  foldl (λ cache steam_license,
           let package := str (package_id (license steam_license)) in
           match cache !! package with
           | Some _ => cache
           | None => <[ package := ∅ ]> cache
           end)
        cache steam_licenses.

Definition update_license_apps (cache : GamesCache)
    (package appid : string) : GamesCache :=
  <[ package := default ∅ (cache !! package) ∪ {[ appid ]} ]> cache.
End GamesCache.

(** ** [_license_import_handler]

    Both protocol clients carry the same text
    ([steam_network/protocol_client.py] lines 409-438 and
    [protocol/protocol_client.py] lines 256-285). *)

Record LicenseState := mkLicenseState {
  _games_cache : GamesCache;
  licenses_sent : list Request
}.

Definition batch_package_ids (steam_licenses : list SteamLicense) : gset string :=
  list_to_set ((λ steam_license, str (package_id (license steam_license)))
                 <$> steam_licenses).

(** The guard of the reset path: fewer than 12000 distinct packages, and
    a set that differs from the one the cache holds. *)
Definition takes_reset_path (cache : GamesCache)
    (steam_licenses : list SteamLicense) : bool :=
  let package_ids := batch_package_ids steam_licenses in
  (Z.of_nat (size package_ids) <? 12000)
  && bool_decide (package_ids ≠ GamesCache.get_package_ids cache).

Definition _license_import_handler (self : LicenseState)
    (steam_licenses : list SteamLicense) : LicenseState :=
  let resolved_packages := GamesCache.get_resolved_packages (_games_cache self) in
  let not_resolved_licenses :=
    filter (λ steam_license,
              str (package_id (license steam_license)) ∉ resolved_packages)
           steam_licenses in
  if takes_reset_path (_games_cache self) steam_licenses then
    let cache := GamesCache.reset_storing_map (_games_cache self) in
    let cache := GamesCache.start_packages_import cache steam_licenses in
    mkLicenseState cache (licenses_sent self ++ [get_packages_info steam_licenses])
  else
    let cache :=
      GamesCache.start_packages_import (_games_cache self) not_resolved_licenses in
    mkLicenseState cache
      (licenses_sent self ++ [get_packages_info not_resolved_licenses]).

(** ** [plugin.py]: playtime and achievements *)

(** [galaxy.api.types.GameTime] as [_get_game_times_dict] builds it. *)
Record GameTime := mkGameTime {
  game_id : string;
  time_played : Z;
  last_played_time : option Z
}.

(** [Achievement(unlock_time, None, name)]. *)
Record Achievement := mkAchievement {
  unlock_time : Z;
  achievement_id : option string;
  achievement_name : option string
}.

#[global] Instance Achievement_eq_dec : EqDecision Achievement.
Proof. solve_decision. Defined.

(** [achievements_cache.Fingerprint(last_played_time, time_played)]. *)
Record Fingerprint := mkFingerprint {
  fp_last_played_time : option Z;
  fp_time_played : Z
}.

#[global] Instance Fingerprint_eq_dec : EqDecision Fingerprint.
Proof. solve_decision. Defined.

(** Modelled from the spec: [cache.py] and [achievements_cache.py] are not
    among the sources. The spec says: "[get(game_id, fingerprint)]: returns
    the cached unlock list only if the stored fingerprint for that game
    exactly equals the supplied fingerprint; otherwise returns miss.
    [update(game_id, achievements, fingerprint)] overwrites
    unconditionally." The cache is a map from the game to its stored
    fingerprint and unlock list; a miss is Python's [None]. *)
Abbreviation Cache := (gmap string (Fingerprint * list Achievement)).

Module Cache.
Definition get (cache : Cache) (game_id : string) (fingerprint : Fingerprint)
    : option (list Achievement) :=
  match cache !! game_id with
  | Some (stored, achievements) =>
      if decide (stored = fingerprint) then Some achievements else None
  | None => None
  end.

Definition update (cache : Cache) (game_id : string)
    (achievements : list Achievement) (fingerprint : Fingerprint) : Cache :=
  <[ game_id := (fingerprint, achievements) ]> cache.
End Cache.

(** A history of [update] calls on the achievements cache, oldest first. *)
Record CacheWrite := mkCacheWrite {
  write_game_id : string;
  write_achievements : list Achievement;
  write_fingerprint : Fingerprint
}.

Definition apply_writes (cache : Cache) (writes : list CacheWrite) : Cache :=
  foldl (λ cache w,
           Cache.update cache (write_game_id w) (write_achievements w)
             (write_fingerprint w))
        cache writes.

(** The most recent write to a game in a history, if there is one. *)
Definition last_write_to (game_id : string) (writes : list CacheWrite)
    : option CacheWrite :=
  last (filter (λ w, write_game_id w = game_id) writes).

(** What [get_unlocked_achievements] does to its collaborators, in order:
    the calls on the achievements cache and the fetches from the backend. *)
Inductive PluginEvent :=
  | cache_get (game_id : string) (fingerprint : Fingerprint)
  | cache_update (game_id : string) (achievements : list Achievement)
      (fingerprint : Fingerprint)
  | backend_get_achievements (game_id : string).

Record SteamPlugin := mkSteamPlugin {
  _achievements_cache : Cache;
  _achievements_cache_updated : bool;
  plugin_events : list PluginEvent
}.

Definition get_game_time (game_id : string) (context : gmap string GameTime)
    : option GameTime :=
  context !! game_id.

(** The constructor of [Achievement] asserts that the id or the name is
    given; here the id is [None], so an empty name fails the assertion. *)
Definition new_Achievement (unlock_time : Z) (name : string) : outcome Achievement :=
  if bool_decide (name = "") then Raise AssertionError
  else Return (mkAchievement unlock_time None (Some name)).

(** [[Achievement(unlock_time, None, name) for unlock_time, name in
    achievements]]: the first failing constructor ends the
    comprehension. *)
Fixpoint new_Achievements (achievements : list (Z * string))
    : outcome (list Achievement) :=
  match achievements with
  | [] => Return []
  | (unlock_time, name) :: rest =>
      match new_Achievement unlock_time name with
      | Raise e => Raise e
      | Return achievement =>
          match new_Achievements rest with
          | Raise e => Raise e
          | Return later => Return (achievement :: later)
          end
      end
  end.

Section get_unlocked_achievements.
(** [self._client.get_achievements(self._steam_id, game_id)]: the backend
    answers with pairs of unlock time and name, or the call raises. *)
Variable client_get_achievements : string → outcome (list (Z * string)).

Definition _get_achievements (self : SteamPlugin) (game_id : string)
    : SteamPlugin * outcome (list Achievement) :=
  let self :=
    mkSteamPlugin (_achievements_cache self) (_achievements_cache_updated self)
      (plugin_events self ++ [backend_get_achievements game_id]) in
  (self,
   match client_get_achievements game_id with
   | Raise e => Raise e
   | Return achievements => new_Achievements achievements
   end).

Definition get_unlocked_achievements (self : SteamPlugin) (game_id : string)
    (context : gmap string GameTime) : SteamPlugin * outcome (list Achievement) :=
  match get_game_time game_id context with
  | None => (self, Raise AttributeError)
  | Some game_time =>
      if time_played game_time =? 0 then (self, Return [])
      else
        let fingerprint :=
          mkFingerprint (last_played_time game_time) (time_played game_time) in
        let achievements := Cache.get (_achievements_cache self) game_id fingerprint in
        let self :=
          mkSteamPlugin (_achievements_cache self) (_achievements_cache_updated self)
            (plugin_events self ++ [cache_get game_id fingerprint]) in
        match achievements with
        | Some achievements => (self, Return achievements)
        | None =>
            match _get_achievements self game_id with
            | (self, Raise e) => (self, Raise e)
            | (self, Return achievements) =>
                (mkSteamPlugin
                   (Cache.update (_achievements_cache self) game_id achievements
                      fingerprint)
                   true
                   (plugin_events self
                      ++ [cache_update game_id achievements fingerprint]),
                 Return achievements)
            end
        end
  end.
End get_unlocked_achievements.

(** ** [user_profile.py] *)

(** An [xml.etree.ElementTree.Element]: tag, text and child elements. *)
#[local] Set Warnings "-register-all".
Inductive Element :=
  | Elem (tag : string) (text : option string) (children : list Element).

Definition tag_of (e : Element) : string := let 'Elem t _ _ := e in t.
Definition text_of (e : Element) : option string := let 'Elem _ t _ := e in t.
Definition children_of (e : Element) : list Element := let 'Elem _ _ c := e in c.

(** [root.find('./tag')]: the first child of [root] with that tag. *)
Definition find_child (name : string) (root : Element) : option Element :=
  head (filter (λ e, tag_of e = name) (children_of root)).

(** [root.find('./games/game')]: the first [game] child of a [games] child
    of [root], in document order. *)
Definition find_games_game (root : Element) : option Element :=
  head (filter (λ e, tag_of e = "games") (children_of root)
          ≫= λ games, filter (λ e, tag_of e = "game") (children_of games)).

(** The truth value of an [Element] is whether it has children. *)
Definition element_truth (e : Element) : bool :=
  negb (bool_decide (children_of e = [])).

(** The truth value of a string is whether it is not empty. *)
Definition str_truth (s : string) : bool := negb (bool_decide (s = "")).

(** A Steam id as a caller may hand it over: [None], an integer or a
    string. *)
Inductive SteamId :=
  | id_None
  | id_int (n : Z)
  | id_str (s : string).

Definition steam_id_truth (steam_id : SteamId) : bool :=
  match steam_id with
  | id_None => false
  | id_int n => negb (n =? 0)
  | id_str s => str_truth s
  end.

Definition format_steam_id (steam_id : SteamId) : string :=
  match steam_id with
  | id_None => "None"
  | id_int n => pretty n
  | id_str s => s
  end.

Definition _BASE_URL : string := "https://steamcommunity.com".

Section UserProfileChecker.
(** The collaborators: [get_text(await self._http_client.get(url))] and
    [ET.fromstring(text)]. Either may raise. *)
Variable http_get_text : string → outcome string.
Variable fromstring : string → outcome Element.

(** The decision of [_verify_is_public] once the document is parsed. *)
Definition verify_root (root : Element) : outcome bool :=
  let error_elm := find_child "error" root in
  let error_txt := error_elm ≫= text_of in
  if from_option str_truth false error_txt then
    if bool_decide (error_txt = Some "The specified profile could not be found.")
    then Raise ProfileDoesNotExist
    else if bool_decide (error_txt = Some "This profile is private.")
    then Raise ProfileIsNotPublic
    else Raise ParseError
  else
    let game_elm := find_games_game root in
    if negb (from_option element_truth false game_elm) then
      Raise NotPublicGameDetailsOrUserHasNoGames
    else Return true.

(** Each check returns the URLs it requested next to its outcome. *)
Definition _verify_is_public (url : string) : list string * outcome bool :=
  let result : outcome bool :=
    text ← http_get_text url;
    root ← fromstring text;
    verify_root root in
  ([url], result).

Definition check_is_public_by_custom_url (username : string)
    : list string * outcome bool :=
  let url := _BASE_URL +:+ "/id/" +:+ username +:+ "/games/?xml=1" in
  _verify_is_public url.

Definition check_is_public_by_steam_id (steam_id : SteamId)
    : list string * outcome bool :=
  if negb (steam_id_truth steam_id) then
    ([], Raise (ValueError ("Incorrect Steam64 ID value: "
                              +:+ format_steam_id steam_id)))
  else
    let url := _BASE_URL +:+ "/profiles/" +:+ format_steam_id steam_id
                 +:+ "/games/?xml=1" in
    _verify_is_public url.
End UserProfileChecker.

(** ** [steam_network/w3_hack.py] *)

Definition W3_EXPANSION_PASS : string := "355880".
Definition W3_DLCS_GOTY_COMPONENTS : gset string := {[ "378648"; "378649" ]}.

Definition does_witcher_3_dlcs_set_resolve_to_GOTY
    (owned_dlc_app_ids : gset string) : bool :=
  bool_decide (W3_EXPANSION_PASS ∈ owned_dlc_app_ids)
  || bool_decide (size (W3_DLCS_GOTY_COMPONENTS ∖ owned_dlc_app_ids) = 0%nat).

(** ** Sample inputs

    Concrete replies, batches and caches on which the handlers are run
    below. *)

Definition sample_login_reply : BeginAuthSessionResponse := {|
  client_id := 11;
  steamid := 76561197960265729;
  request_id := "r";
  interval := 5;
  allowed_confirmations :=
    [ k_EAuthSessionGuardType_DeviceConfirmation;
      k_EAuthSessionGuardType_EmailCode;
      k_EAuthSessionGuardType_DeviceCode ];
  extended_error_message := ""
|}.

(** A cache that holds user 7, and an incremental update that declares
    user 7 blocked (relationship code 1). *)
Definition sample_friends_state : RelationshipState :=
  mkRelationshipState {[ 7 ]} [].

Definition sample_blocked_update : list (Z * EFriendRelationship) :=
  [ (7, EFriendRelationship_Other 1) ].

(** An incremental update that drops user 7 and adds user 8. *)
Definition sample_friend_update : list (Z * EFriendRelationship) :=
  [ (7, EFriendRelationship_None_); (8, EFriendRelationship_Friend) ].

(** A cache that knows packages 1, 2 and 3, package 1 resolved to app
    "10", and a batch of licenses for packages 1 to 4. *)
Definition sample_games_cache : GamesCache :=
  {[ "1" := {[ "10" ]}; "2" := ∅; "3" := ∅ ]}.

Definition sample_license (package : N) : SteamLicense :=
  {| license := {| package_id := package; entitlement := 0 |}; shared := false |}.

Definition sample_batch : list SteamLicense :=
  [ sample_license 1; sample_license 2; sample_license 3; sample_license 4 ].

Definition sample_license_state : LicenseState :=
  mkLicenseState sample_games_cache [].

(** A context with an unplayed and a played game, a backend that knows
    one unlock, and a plugin that has cached nothing. *)
Definition sample_context : gmap string GameTime :=
  {[ "440" := mkGameTime "440" 0 None;
     "570" := mkGameTime "570" 120 (Some 1600000000) ]}.

Definition sample_backend (game_id : string) : outcome (list (Z * string)) :=
  Return [ (1500000000, "First Blood") ].

Definition sample_plugin : SteamPlugin := mkSteamPlugin ∅ false [].

Definition sample_writes : list CacheWrite :=
  [ mkCacheWrite "570" [] (mkFingerprint None 60);
    mkCacheWrite "440" [] (mkFingerprint None 5);
    mkCacheWrite "570" [ mkAchievement 1500000000 None (Some "First Blood") ]
      (mkFingerprint (Some 1600000000) 120) ].

(** Three profile documents: a private profile, a profile without games
    and a profile with one game. *)
Definition sample_private_profile : Element :=
  Elem "response" None [ Elem "error" (Some "This profile is private.") [] ].

Definition sample_empty_profile : Element :=
  Elem "gamesList" None [ Elem "steamID64" (Some "76561197960265729") [];
                          Elem "games" None [] ].

Definition sample_public_profile : Element :=
  Elem "gamesList" None
    [ Elem "steamID64" (Some "76561197960265729") [];
      Elem "games" None
        [ Elem "game" None [ Elem "appID" (Some "440") [];
                             Elem "name" (Some "Team Fortress 2") [] ] ] ].

Definition sample_http (url : string) : outcome string := Return url.

(** * The rest of the protocol clients and of the plugin *)

(** ** [to_CAuthentication_AllowedConfirmation] *)

Definition to_CAuthentication_AllowedConfirmation
    (actionRequired : UserActionRequired) : EAuthSessionGuardType :=
  if decide (actionRequired = NoActionRequired) then
    k_EAuthSessionGuardType_None
  else if decide (actionRequired = EmailTwoFactorInputRequired) then
    k_EAuthSessionGuardType_EmailCode
  else if decide (actionRequired = PhoneTwoFactorInputRequired) then
    k_EAuthSessionGuardType_DeviceCode
  else if decide (actionRequired = PhoneTwoFactorConfirmRequired) then
    k_EAuthSessionGuardType_DeviceConfirmation
  else
    k_EAuthSessionGuardType_Unknown.

(** ** The key exchange: [get_rsa_public_key] and [_rsa_handler] *)

(** [SteamPublicKey(PublicKey(mod, exp), timestamp)]. *)
Record SteamPublicKey := mkSteamPublicKey {
  rsa_mod : Z;
  rsa_exp : Z;
  rsa_timestamp : Z
}.

(** The slots of [ProtocolClient] that the key exchange and the
    authentication calls share. An auth-lost callback is known by a
    number. *)
Record AuthState := mkAuthState {
  _rsa_future : option (Future (Z * option SteamPublicKey));
  _auth_lost_handler : option nat
}.

Section rsa.
Context `{EResultCodes}.

(** [_rsa_handler]: a reply that finds no future is logged and dropped. *)
Definition _rsa_handler (self : AuthState) (result mod_ exp timestamp : Z)
    : AuthState * outcome unit :=
  let spk :=
    if result =? EResult_OK then Some (mkSteamPublicKey mod_ exp timestamp)
    else None in
  match _rsa_future self with
  | Some fut =>
      match set_result fut (result, spk) with
      | Return fut' => (mkAuthState (Some fut') (_auth_lost_handler self), Return ())
      | Raise e => (self, Raise e)
      end
  | None => (self, Return ())
  end.

(** [get_rsa_public_key] up to its [await self._rsa_future]: a fresh
    future takes the slot. *)
Definition get_rsa_public_key_begin (self : AuthState) : AuthState :=
  mkAuthState (Some Pending) (_auth_lost_handler self).

(** [get_rsa_public_key] from the value the future delivered. The
    [elif True] branch takes every result but [OK], so the [else] branch
    that raises is never reached. *)
Definition get_rsa_public_key_resume (self : AuthState)
    (awaited : Z * option SteamPublicKey) (auth_lost_handler : nat)
    : AuthState * outcome (UserActionRequired * option SteamPublicKey) :=
  let '(result, key) := awaited in
  if result =? EResult_OK then
    (mkAuthState (_rsa_future self) (Some auth_lost_handler),
     Return (PasswordRequired, key))
  else if true then
    (self, Return (InvalidAuthData, key))
  else
    (self, raise_translate_error result).

(** One key exchange: the call is started, the reply arrives and is
    handled, and the call goes on with what its future holds. The call
    stays suspended ([None]) as long as the future is pending. *)
Definition rsa_exchange (self : AuthState) (auth_lost_handler : nat)
    (result mod_ exp timestamp : Z)
    : option (AuthState * outcome (UserActionRequired * option SteamPublicKey)) :=
  let self := get_rsa_public_key_begin self in
  match _rsa_handler self result mod_ exp timestamp with
  | (self, Raise e) => None
  | (self, Return _) =>
      match _rsa_future self with
      | Some (Done awaited) =>
          Some (get_rsa_public_key_resume self awaited auth_lost_handler)
      | _ => None
      end
  end.
End rsa.

(** ** [authenticate_password] *)

(** [protocol/consts.py] is not among the sources: one more member of
    [EResult] that only the authentication calls name. *)
Class EResultAuthCodes := {
  EResult_AccountLogonDenied : Z
}.

Definition steam_eresult_auth : EResultAuthCodes :=
  {| EResult_AccountLogonDenied := 63 |}.

(** What [authenticate_password] of [steam_network] hands back: an action
    for the user, or the polling data of the reply. *)
Inductive AuthResult :=
  | returned_action (action : UserActionRequired)
  | returned_data (data : option SteamPollingData).

Section authenticate_password.
Context `{EResultCodes} `{EResultAuthCodes}.

Definition rejected_credentials_codes : list Z :=
  [ EResult_InvalidPassword; EResult_InvalidSteamID; EResult_AccountNotFound;
    EResult_InvalidLoginAuthCode; EResult_TwoFactorCodeMismatch;
    EResult_TwoFactorActivationCodeMismatch ].

(** [authenticate_password] up to its [await self._login_future]. *)
Definition authenticate_password_begin (self : LoginState) : LoginState :=
  mkLoginState (user_info_steam_id self) (Some Pending).

(** [authenticate_password] ([steam_network]) from the value the login
    future delivered; the first component is [self._auth_lost_handler]. *)
Definition authenticate_password_resume (_auth_lost_handler : option nat)
    (awaited : Z * option SteamPollingData) (auth_lost_handler : nat)
    : option nat * outcome AuthResult :=
  let '(result, data) := awaited in
  if result =? EResult_OK then
    (Some auth_lost_handler, Return (returned_data data))
  else if result =? EResult_AccountLogonDenied then
    (Some auth_lost_handler, Return (returned_action EmailTwoFactorInputRequired))
  else if result =? EResult_AccountLoginDeniedNeedTwoFactor then
    (Some auth_lost_handler, Return (returned_action PhoneTwoFactorInputRequired))
  else if py_in result rejected_credentials_codes then
    (Some auth_lost_handler, Return (returned_action InvalidAuthData))
  else
    (_auth_lost_handler, raise_translate_error result).

(** One login: the call is started, the reply arrives and is handled by
    [_login_handler], and the call goes on with what its future holds. *)
Definition login_exchange (self : LoginState) (_auth_lost_handler : option nat)
    (auth_lost_handler : nat) (result : Z) (message : BeginAuthSessionResponse)
    : option (LoginState * (option nat * outcome AuthResult)) :=
  let self := authenticate_password_begin self in
  match _login_handler self result message with
  | (self, Raise e) => None
  | (self, Return _) =>
      match _login_future self with
      | Some (Done awaited) =>
          Some (self, authenticate_password_resume _auth_lost_handler awaited
                        auth_lost_handler)
      | _ => None
      end
  end.

(** [_log_off_handler]: the callback, if there is one, is awaited with
    the translated error. The calls made are returned next to the
    outcome. *)
Definition _log_off_handler (_auth_lost_handler : option nat) (result : Z)
    : list (nat * GalaxyError) * outcome unit :=
  match _auth_lost_handler with
  | Some handler =>
      match translate_error result with
      | Return e => ([(handler, e)], Return ())
      | Raise e => ([], Raise e)
      end
  | None => ([], Return ())
  end.
End authenticate_password.

(** ** [protocol/protocol_client.py]: authentication by token *)

Module LegacyAuth.
(** The older client has no confirmation by device. *)
Inductive UserActionRequired :=
  | NoActionRequired
  | EmailTwoFactorInputRequired
  | PhoneTwoFactorInputRequired
  | PasswordRequired
  | InvalidAuthData.

Section authenticate.
Context `{EResultCodes} `{EResultAuthCodes}.

(** [authenticate_token] from the result the login future delivered. *)
Definition authenticate_token_resume (_auth_lost_handler : option nat)
    (result : Z) (auth_lost_handler : nat)
    : option nat * outcome UserActionRequired :=
  if result =? EResult_OK then
    (Some auth_lost_handler, Return NoActionRequired)
  else if result =? EResult_InvalidPassword then
    (_auth_lost_handler,
     Raise (GalaxyException (mkGalaxyError InvalidCredentials result)))
  else
    (_auth_lost_handler, raise_translate_error result).

(** [authenticate_password] of the older client, likewise. *)
Definition authenticate_password_resume (_auth_lost_handler : option nat)
    (result : Z) (auth_lost_handler : nat)
    : option nat * outcome UserActionRequired :=
  if result =? EResult_OK then
    (Some auth_lost_handler, Return NoActionRequired)
  else if result =? EResult_AccountLogonDenied then
    (Some auth_lost_handler, Return EmailTwoFactorInputRequired)
  else if result =? EResult_AccountLoginDeniedNeedTwoFactor then
    (Some auth_lost_handler, Return PhoneTwoFactorInputRequired)
  else if py_in result rejected_credentials_codes then
    (Some auth_lost_handler, Return InvalidAuthData)
  else
    (_auth_lost_handler, raise_translate_error result).
End authenticate.
End LegacyAuth.

(** ** What the relationship handler asks for *)

(** The users an update declares friends, in the order of the dict. *)
Definition declared_friends (friends : list (Z * EFriendRelationship)) : list Z :=
  (filter (λ item, item.2 = EFriendRelationship_Friend) friends).*1.

(** Whether an update declares some user [None_]. *)
Definition declares_none (friends : list (Z * EFriendRelationship)) : bool :=
  bool_decide (EFriendRelationship_None_ ∈ friends.*2).

(** ** [_translations_handler] *)

Section translations.
(** A presence localization, as the protobuf client hands it over. *)
Context {Translation : Type}.

(** [self._translations_cache], a dict from the app id to its translation
    or to [None], and the calls of [get_presence_localization]. *)
Record TranslationsState := mkTranslationsState {
  _translations_cache : gmap Z (option Translation);
  translations_sent : list Z
}.

(** The truth value of the [translations] argument: [None] and the empty
    sequence are false. *)
Definition translations_truth (translations : option (list Translation)) : bool :=
  match translations with
  | Some (_ :: _) => true
  | _ => false
  end.

Definition _translations_handler (self : TranslationsState) (appid : Z)
    (translations : option (list Translation)) : TranslationsState :=
  if negb (appid =? 0) && translations_truth translations then
    match translations with
    | Some (first :: _) =>
        mkTranslationsState (<[ appid := Some first ]> (_translations_cache self))
          (translations_sent self)
    | _ => self
    end
  else if bool_decide (_translations_cache self !! appid = None) then
    mkTranslationsState (<[ appid := None ]> (_translations_cache self))
      (translations_sent self ++ [appid])
  else self.
End translations.
Arguments TranslationsState : clear implicits.

(** ** [_stats_handler] of [steam_network] *)

Module StatsHandler.

(** The schema is a parsed key-value document: nested dicts with strings
    at the leaves. A dict is kept as the list of its items. *)
Inductive PyVal :=
  | VStr (s : string)
  | VDict (items : list (string * PyVal)).

(** What a subscript with a string key can raise. *)
Inductive LookupError :=
  | KeyError
  | TypeError.

#[global] Instance lookup_ret : MRet (sum LookupError) := λ A a, inr a.
#[global] Instance lookup_bind : MBind (sum LookupError) := λ A B k m,
  match m with
  | inr a => k a
  | inl e => inl e
  end.

Fixpoint dict_get (items : list (string * PyVal)) (key : string) : option PyVal :=
  match items with
  | [] => None
  | (k, v) :: rest => if decide (k = key) then Some v else dict_get rest key
  end.

(** [v[key]]: a missing key of a dict is a [KeyError], and a string does
    not take a string subscript. *)
Definition getitem (v : PyVal) (key : string) : LookupError + PyVal :=
  match v with
  | VDict items =>
      match dict_get items key with
      | Some x => inr x
      | None => inl KeyError
      end
  | VStr _ => inl TypeError
  end.

(** [CMsgClientGetUserStatsResponse.AchievementBlocks]: a block id and the
    unlock times of its bits. *)
Record AchievementBlock := mkAchievementBlock {
  achievement_id : Z;
  unlock_time : list Z
}.

(** An entry of [achievements_unlocked]. *)
Record Unlocked := mkUnlocked {
  entry_id : Z;
  entry_unlock_time : Z;
  entry_name : PyVal
}.

(** The inner function: only the [TypeError] of [name['english']] is
    caught there. *)
Definition get_achievement_name (achievements_block_schema : PyVal)
    (bit_no : nat) : LookupError + PyVal :=
  bits ← getitem achievements_block_schema "bits";
  bit ← getitem bits (pretty bit_no);
  display ← getitem bit "display";
  name ← getitem display "name";
  match getitem name "english" with
  | inr english => inr english
  | inl TypeError => inr name
  | inl KeyError => inl KeyError
  end.

(** What it means for an entry to report bit [bit] of block [block]: the
    unlock time is positive, the id and the time are those of the bit, and
    the name is the one the schema of the block gives. *)
Definition reported (stats_block_schema : PyVal) (block : Z) (bit : nat)
    (time : Z) (u : Unlocked) : Prop :=
  0 < time
  ∧ entry_unlock_time u = time
  ∧ entry_id u = 32 * (block - 1) + Z.of_nat bit
  ∧ get_achievement_name stats_block_schema bit = inr (entry_name u).

(** The loop over [enumerate(achievement_block.unlock_time)], from bit
    [i] on. A [KeyError] of the name lookup skips the bit. *)
Fixpoint unlock_time_loop (stats_block_schema : PyVal) (block : Z) (i : nat)
    (unlock_times : list Z) : LookupError + list Unlocked :=
  match unlock_times with
  | [] => inr []
  | unlock_time :: rest =>
      if 0 <? unlock_time then
        match get_achievement_name stats_block_schema i with
        | inl KeyError => unlock_time_loop stats_block_schema block (S i) rest
        | inl TypeError => inl TypeError
        | inr display_name =>
            later ← unlock_time_loop stats_block_schema block (S i) rest;
            inr (mkUnlocked (32 * (block - 1) + Z.of_nat i) unlock_time
                   display_name :: later)
        end
      else unlock_time_loop stats_block_schema block (S i) rest
  end.

(** [schema[game_id]['stats'][block_id]]. *)
Definition stats_block_schema_of (schema : PyVal) (game_id : string)
    (block_id : string) : LookupError + PyVal :=
  game ← getitem schema game_id;
  stats ← getitem game "stats";
  getitem stats block_id.

(** The loop over the achievement blocks. A [KeyError] of the schema
    lookup skips the block. *)
Fixpoint achievement_blocks_loop (schema : PyVal) (game_id : string)
    (achievement_blocks : list AchievementBlock) : LookupError + list Unlocked :=
  match achievement_blocks with
  | [] => inr []
  | achievement_block :: rest =>
      let block_id := pretty (achievement_id achievement_block) in
      match stats_block_schema_of schema game_id block_id with
      | inl KeyError => achievement_blocks_loop schema game_id rest
      | inl TypeError => inl TypeError
      | inr stats_block_schema =>
          unlocked ← unlock_time_loop stats_block_schema
                       (achievement_id achievement_block) 0
                       (unlock_time achievement_block);
          later ← achievement_blocks_loop schema game_id rest;
          inr (unlocked ++ later)
      end
  end.

(** [_stats_handler]: the list that is handed to
    [self._stats_cache.update_stats], unless an exception leaves the
    handler before. *)
Definition _stats_handler (game_id : string)
    (achievement_blocks : list AchievementBlock) (schema : PyVal)
    : LookupError + list Unlocked :=
  achievement_blocks_loop schema game_id achievement_blocks.

End StatsHandler.

(** ** [plugin.py]: cookies, owned games, import completion *)

Module Plugin.

(** The exceptions of this part of the plugin. [BackendFailure] stands for
    whatever the HTTP backend raises. *)
Inductive Exc :=
  | KeyError
  | CookieError
  | UnknownBackendResponse
  | AuthenticationRequired
  | AttributeError
  | BackendFailure (tag : Z).

#[global] Instance exc_ret : MRet (sum Exc) := λ A a, inr a.
#[global] Instance exc_bind : MBind (sum Exc) := λ A B k m,
  match m with
  | inr a => k a
  | inl e => inl e
  end.

(** *** Cookies *)

(** An [http.cookies.Morsel], with the two attributes that the plugin
    reads and writes. *)
Record Morsel := mkMorsel {
  key : string;
  value : string;
  coded_value : string;
  domain : string;
  path : string
}.

Definition morsels_to_dicts (morsels : list Morsel) : list (gmap string string) :=
  (λ morsel,
     ({[ "name" := key morsel; "value" := value morsel;
         "domain" := domain morsel; "path" := path morsel ]}
        : gmap string string)) <$> morsels.

(** Stored credentials hold the cookies as a list of dicts or, in the
    older format, as one dict from names to values. *)
Inductive StoredCookies :=
  | stored_list (cookies : list (gmap string string))
  | stored_dict (items : list (string * string)).

Section cookies.
(** [Morsel.set] refuses a key that is reserved or not legal with a
    [CookieError]; the test is the library's. *)
Variable legal_key : string → bool.

(** The body of the loop of [dicts_to_morsels]. *)
Definition dict_to_morsel (cookie : gmap string string) : Exc + Morsel :=
  match cookie !! "name" with
  | None => inl KeyError
  | Some name =>
      match cookie !! "value" with
      | None => inl KeyError
      | Some value =>
          if legal_key name then
            inr (mkMorsel name value value
                   (default "" (cookie !! "domain"))
                   (default "" (cookie !! "path")))
          else inl CookieError
      end
  end.

Fixpoint dicts_to_morsels (cookies : list (gmap string string))
    : Exc + list Morsel :=
  match cookies with
  | [] => inr []
  | cookie :: rest =>
      m ← dict_to_morsel cookie;
      morsels ← dicts_to_morsels rest;
      inr (m :: morsels)
  end.

Definition parse_stored_cookies (cookies : StoredCookies) : Exc + list Morsel :=
  match cookies with
  | stored_dict items =>
      dicts_to_morsels
        ((λ '(key, value),
            ({[ "name" := key; "value" := value ]} : gmap string string))
           <$> items)
  | stored_list cookies => dicts_to_morsels cookies
  end.

End cookies.

(** *** Owned games *)

(** A value of a game entry of the backend: a number or a text. *)
Inductive Scalar :=
  | SInt (n : Z)
  | SText (s : string).

Definition str_of (v : Scalar) : string :=
  match v with
  | SInt n => pretty n
  | SText s => s
  end.

Inductive LicenseType :=
  | SinglePurchase
  | OtherUserLicense.

(** [Game(game_id, game_title, dlcs, LicenseInfo(license_type, owner))];
    the list of DLCs is always empty here. *)
Record Game := mkGame {
  game_id : string;
  game_title : Scalar;
  license_type : LicenseType;
  license_owner : option string
}.

Record FriendInfo := mkFriendInfo {
  user_id : string;
  user_name : string
}.

(** ["!" in user_name]. *)
Fixpoint contains_char (c : Ascii.ascii) (s : string) : bool :=
  match s with
  | EmptyString => false
  | String c' rest => bool_decide (c' = c) || contains_char c rest
  end.

Record OwnedState := mkOwnedState {
  _steam_id : option string;
  _own_games : list (gmap string Scalar);
  _other_games : list string;
  _own_friends : list FriendInfo
}.

Section owned_games.
(** [self._client.get_games(steam_id)]. *)
Variable get_games : string → Exc + list (gmap string Scalar).

(** [any(proj(f) == str(game["appid"]) for f in l)]: the generator looks
    [game["appid"]] up once per element, so an empty [l] gives [False]
    without a lookup and a missing key is a [KeyError] otherwise. *)
Definition any_appid {A} (proj : A → string) (game : gmap string Scalar)
    (l : list A) : Exc + bool :=
  match l with
  | [] => inr false
  | _ :: _ =>
      match game !! "appid" with
      | None => inl KeyError
      | Some appid => inr (existsb (λ f, bool_decide (proj f = str_of appid)) l)
      end
  end.

(** [hasit]: the second [any] runs only if the first is false. *)
Definition hasit (owngames : list string) (newgames : list Game)
    (game : gmap string Scalar) : Exc + bool :=
  own ← any_appid (λ f, f) game owngames;
  if (own : bool) then inr true else any_appid game_id game newgames.

(** The inner loop of [get_steam_sharing_games] over the games of one
    friend. For a game that is not owned the first statement is
    [self._ither_games.append(...)], on an attribute that the plugin does
    not have, so [AttributeError] is raised before anything is evaluated
    or appended and [newgames] is never extended. A [KeyError] is turned
    into [UnknownBackendResponse]. *)
Fixpoint sharing_games_loop (owngames : list string) (newgames : list Game)
    (othergames : list (gmap string Scalar)) : Exc + list Game :=
  match othergames with
  | [] => inr newgames
  | game :: rest =>
      match hasit owngames newgames game with
      | inl KeyError => inl UnknownBackendResponse
      | inl e => inl e
      | inr has =>
          if negb has then inl AttributeError
          else sharing_games_loop owngames newgames rest
      end
  end.

(** The outer loop over the friends whose name holds a "!". *)
Fixpoint sharing_profiles_loop (owngames : list string) (newgames : list Game)
    (profiles : list FriendInfo) : Exc + list Game :=
  match profiles with
  | [] => inr newgames
  | i :: rest =>
      othergames ← get_games (user_id i);
      newgames ← sharing_games_loop owngames newgames othergames;
      sharing_profiles_loop owngames newgames rest
  end.

Definition get_steam_sharing_games (self : OwnedState) (owngames : list string)
    : OwnedState * (Exc + list Game) :=
  let profiles :=
    filter (λ x, contains_char "!"%char (user_name x) = true) (_own_friends self) in
  let self :=
    mkOwnedState (_steam_id self) (_own_games self) [] (_own_friends self) in
  (self, sharing_profiles_loop owngames [] profiles).

(** The first loop of [get_owned_games]. *)
Fixpoint own_games_loop (games : list (gmap string Scalar)) : Exc + list Game :=
  match games with
  | [] => inr []
  | game :: rest =>
      match game !! "appid", game !! "name" with
      | Some appid, Some name =>
          later ← own_games_loop rest;
          inr (mkGame (str_of appid) name SinglePurchase None :: later)
      | _, _ => inl UnknownBackendResponse
      end
  end.

Definition get_owned_games (self : OwnedState) : OwnedState * (Exc + list Game) :=
  match _steam_id self with
  | None => (self, inl AuthenticationRequired)
  | Some steam_id =>
      match get_games steam_id with
      | inl e => (self, inl e)
      | inr games =>
          match own_games_loop games with
          | inl e => (self, inl e)
          | inr owned_games =>
              let self :=
                mkOwnedState (_steam_id self) games (_other_games self)
                  (_own_friends self) in
              let game_ids := game_id <$> owned_games in
              match get_steam_sharing_games self game_ids with
              | (self, inl e) => (self, inl e)
              | (self, inr other_games) => (self, inr (owned_games ++ other_games))
              end
          end
      end
  end.
End owned_games.

(** A backend in which the user owns game 440, and a friend who shares
    owns 440 and 570. *)
Definition sample_get_games (steam_id : string)
    : Exc + list (gmap string Scalar) :=
  if bool_decide (steam_id = "me") then
    inr [ {[ "appid" := SInt 440; "name" := SText "Team Fortress 2" ]} ]
  else
    inr [ {[ "appid" := SInt 440; "name" := SText "Team Fortress 2" ]};
          {[ "appid" := SInt 570; "name" := SText "Dota 2" ]} ].

End Plugin.

(** *** [achievements_import_complete] *)

(** The cache is pushed if it was updated since the last push; the second
    component tells whether [push_cache] was called. *)
Definition achievements_import_complete (self : SteamPlugin) : SteamPlugin * bool :=
  if _achievements_cache_updated self then
    (mkSteamPlugin (_achievements_cache self) false (plugin_events self), true)
  else (self, false).

(** ** [steam_network/w3_hack.py]: the DLC identifiers *)

Definition WITCHER_3_DLCS_APP_IDS : list string :=
  [ "355880"; "378648"; "378649" ].

(** * Theorems *)

(** ** The error translator *)

Section translate_error_facts.
Context `{EResultCodes}.

Lemma py_in_true x t : py_in x t = true ↔ x ∈ t.
Proof. unfold py_in. apply bool_decide_eq_true. Qed.

Lemma py_in_false x t : py_in x t = false ↔ x ∉ t.
Proof. unfold py_in. apply bool_decide_eq_false. Qed.

(** With any code but [OK] the assertion passes and an error object
    carrying that code comes back. *)
Lemma translate_error_returns result :
  result ≠ EResult_OK →
  ∃ k, translate_error result = Return (mkGalaxyError k result).
Proof.
  intros Hne. unfold translate_error.
  apply Z.eqb_neq in Hne. rewrite Hne. simpl.
  repeat (match goal with |- context [if ?b then _ else _] => destruct b end;
          [eexists; reflexivity|]).
  eexists; reflexivity.
Qed.

Lemma translate_error_unlisted result :
  result ≠ EResult_OK → result ∉ listed_codes →
  translate_error result = Return (mkGalaxyError UnknownError result).
Proof.
  intros Hne Hnot. unfold translate_error.
  apply Z.eqb_neq in Hne. rewrite Hne. simpl.
  unfold listed_codes in Hnot.
  rewrite !elem_of_app, !list_elem_of_singleton in Hnot.
  assert ((result =? EResult_Timeout) = false) as -> by (apply Z.eqb_neq; tauto).
  assert ((result =? EResult_Banned) = false) as -> by (apply Z.eqb_neq; tauto).
  repeat match goal with
         | |- context [py_in result ?t] =>
             assert (py_in result t = false) as -> by (apply py_in_false; tauto)
         end.
  reflexivity.
Qed.

Lemma translate_error_ok : translate_error EResult_OK = Raise AssertionError.
Proof. unfold translate_error. rewrite Z.eqb_refl. reflexivity. Qed.
End translate_error_facts.

(** C2. For every result code other than [OK], [translate_error] returns
    (it does not raise) exactly one error object, whose kind is one of the
    nine kinds of the taxonomy and which carries the code; a code that none
    of the branches lists gives [UnknownError]; and with [OK] the assertion
    at the top of the function fails. *)
Theorem translate_error_total `{EResultCodes} (result : Z) :
  result ≠ EResult_OK →
  (∃ k, k ∈ taxonomy
        ∧ translate_error result = Return (mkGalaxyError k result)
        ∧ ∀ e, translate_error result = Return e → e = mkGalaxyError k result)
  ∧ (result ∉ listed_codes →
     translate_error result = Return (mkGalaxyError UnknownError result))
  ∧ translate_error EResult_OK = Raise AssertionError.
Proof.
  intros Hne. split; [|split].
  - destruct (translate_error_returns result Hne) as [k Hk].
    exists k. split; [|split].
    + unfold taxonomy. rewrite !elem_of_cons. destruct k; tauto.
    + exact Hk.
    + intros e He. congruence.
  - apply translate_error_unlisted; assumption.
  - apply translate_error_ok.
Qed.

Lemma translate_error_total_witness :
  48 ≠ @EResult_OK steam_eresult
  ∧ (∃ k, k ∈ taxonomy
        ∧ @translate_error steam_eresult 48 = Return (mkGalaxyError k 48)
        ∧ ∀ e, @translate_error steam_eresult 48 = Return e
               → e = mkGalaxyError k 48)
  ∧ (48 ∉ @listed_codes steam_eresult →
     @translate_error steam_eresult 48 = Return (mkGalaxyError UnknownError 48))
  ∧ @translate_error steam_eresult (@EResult_OK steam_eresult)
    = Raise AssertionError.
Proof.
  assert (Hne : 48 ≠ @EResult_OK steam_eresult) by (simpl; lia).
  split; [exact Hne|].
  exact (@translate_error_total steam_eresult 48 Hne).
Defined.

Example translate_error_try_another_cm :
  @translate_error steam_eresult 48
  = Return (mkGalaxyError BackendNotAvailable 48).
Proof. vm_compute. reflexivity. Qed.

Example translate_error_unnamed_code :
  @translate_error steam_eresult 2 = Return (mkGalaxyError UnknownError 2).
Proof. vm_compute. reflexivity. Qed.

(** ** The login reply handler *)

Lemma to_UserAction_not_password g : to_UserAction g ≠ PasswordRequired.
Proof. destruct g; discriminate. Qed.

(** The loop keeps the best action seen so far: its result is the start
    value or an offered action, and nothing offered outranks it. *)
Lemma allowed_confirmations_loop_best allowed : ∀ auth_method,
  auth_method ≠ PhoneTwoFactorInputRequired →
  auth_method ≠ PasswordRequired →
  let r := allowed_confirmations_loop auth_method allowed in
  (r = auth_method ∨ ∃ g, g ∈ allowed ∧ to_UserAction g = r)
  ∧ (priority auth_method ≤ priority r)%nat
  ∧ ∀ g, g ∈ allowed → (priority (to_UserAction g) ≤ priority r)%nat.
Proof.
  induction allowed as [|a rest IH]; intros m Hphone Hpwd; simpl.
  - split; [left; reflexivity|]. split; [lia|]. intros g Hg. inversion Hg.
  - pose proof (to_UserAction_not_password a) as Ha.
    assert (Hstep : ∀ m', m' ≠ PhoneTwoFactorInputRequired → m' ≠ PasswordRequired →
              (m' = m ∨ m' = to_UserAction a) →
              (priority m ≤ priority m')%nat →
              (priority (to_UserAction a) ≤ priority m')%nat →
              let r := allowed_confirmations_loop m' rest in
              (r = m ∨ ∃ g, g ∈ a :: rest ∧ to_UserAction g = r)
              ∧ (priority m ≤ priority r)%nat
              ∧ ∀ g, g ∈ a :: rest → (priority (to_UserAction g) ≤ priority r)%nat).
    { intros m' H1 H2 Hsrc Hm Hact.
      destruct (IH m' H1 H2) as (Hr & Hle & Hall). simpl.
      split; [|split].
      - destruct Hr as [-> | (g & Hg & Hgr)].
        + destruct Hsrc as [-> | ->]; [left; reflexivity|].
          right. exists a. split; [left | reflexivity].
        + right. exists g. split; [right; exact Hg | exact Hgr].
      - lia.
      - intros g Hg. apply elem_of_cons in Hg as [-> | Hg]; [lia | auto]. }
    destruct (decide (to_UserAction a = PhoneTwoFactorInputRequired)) as [Hp|Hp].
    { rewrite Hp. split; [|split].
      - right. exists a. split; [left | exact Hp].
      - destruct m; simpl; lia.
      - intros g _. destruct (to_UserAction g); simpl; lia. }
    destruct (decide (to_UserAction a = EmailTwoFactorInputRequired)) as [He|He].
    { apply Hstep; try congruence; [right; reflexivity | |lia].
      rewrite He. destruct m; simpl; try lia; congruence. }
    destruct (bool_decide_reflect (to_UserAction a = PhoneTwoFactorConfirmRequired))
      as [Hc|Hc]; simpl.
    { destruct (bool_decide_reflect (m ≠ EmailTwoFactorInputRequired)) as [Hm|Hm].
      - apply Hstep; try congruence; [right; reflexivity | |lia].
        rewrite Hc. destruct m; simpl; try lia; congruence.
      - apply dec_stable in Hm. rewrite Hc. simpl.
        apply Hstep; try congruence; [left; reflexivity | lia |].
        rewrite Hc, Hm. simpl. lia. }
    destruct (bool_decide_reflect (to_UserAction a = NoActionRequired))
      as [Hn|Hn]; simpl.
    { destruct (bool_decide_reflect (m = InvalidAuthData)) as [Hm|Hm].
      - apply Hstep; try congruence; [right; reflexivity | |lia].
        rewrite Hn, Hm. simpl. lia.
      - apply Hstep; try congruence; [left; reflexivity | lia |].
        rewrite Hn. destruct m; simpl; try lia; congruence. }
    apply Hstep; try congruence; [left; reflexivity | lia |].
    destruct (to_UserAction a); simpl; try lia; congruence.
Qed.

Section login_handler_facts.
Context `{EResultCodes}.

(** A successful reply that finds a pending future resolves it with the
    polling data of the message and the action the loop chose. *)
Lemma login_handler_ok_pending self message :
  _login_future self = Some Pending →
  _login_handler self EResult_OK message
  = (mkLoginState (Some (steamid message))
       (Some (Done (EResult_OK,
          Some (mkSteamPollingData (client_id message) (steamid message)
                  (request_id message) (interval message)
                  (allowed_confirmations_loop InvalidAuthData
                     (allowed_confirmations message))
                  (extended_error_message message))))),
     Return ()).
Proof.
  intros Hfut. unfold _login_handler. rewrite Z.eqb_refl.
  destruct self as [sid fut]. simpl in *. subst fut.
  destruct (decide (sid ≠ Some (steamid message))) as [Hd|Hd]; simpl.
  - reflexivity.
  - apply dec_stable in Hd. subst sid. reflexivity.
Qed.

(** A failed reply that finds no pending future is raised as its
    translation, and the handler changes nothing. *)
Lemma login_handler_error_no_future self result message :
  _login_future self = None → result ≠ EResult_OK →
  ∃ e, translate_error result = Return e
       ∧ _login_handler self result message = (self, Raise (GalaxyException e)).
Proof.
  intros Hfut Hne.
  destruct (translate_error_returns result Hne) as [k Hk].
  exists (mkGalaxyError k result). split; [exact Hk|].
  unfold _login_handler. apply Z.eqb_neq in Hne. rewrite Hne.
  rewrite Hfut. unfold raise_translate_error. rewrite Hk. reflexivity.
Qed.

(** A successful reply that finds no pending future reaches
    [translate_error] with [OK], whose assertion fails. *)
Lemma login_handler_ok_no_future self message :
  _login_future self = None →
  (_login_handler self EResult_OK message).2 = Raise AssertionError.
Proof.
  intros Hfut. unfold _login_handler. rewrite Z.eqb_refl.
  destruct self as [sid fut]. simpl in *. subst fut.
  unfold raise_translate_error. rewrite translate_error_ok.
  destruct (decide (sid ≠ Some (steamid message))); reflexivity.
Qed.
End login_handler_facts.

(** Each of the four challenges stands for one guard type. *)
Lemma to_UserAction_guard g :
  (to_UserAction g = PhoneTwoFactorInputRequired
   → g = k_EAuthSessionGuardType_DeviceCode)
  ∧ (to_UserAction g = EmailTwoFactorInputRequired
     → g = k_EAuthSessionGuardType_EmailCode)
  ∧ (to_UserAction g = PhoneTwoFactorConfirmRequired
     → g = k_EAuthSessionGuardType_DeviceConfirmation)
  ∧ (to_UserAction g = NoActionRequired → g = k_EAuthSessionGuardType_None).
Proof. destruct g; repeat split; intros Heq; try reflexivity; discriminate. Qed.

(** The loop computes the rule of the specification on the guard types
    of the list. *)
Lemma allowed_confirmations_loop_highest allowed :
  allowed_confirmations_loop InvalidAuthData allowed
  = highest_priority_challenge allowed.
Proof.
  destruct (allowed_confirmations_loop_best allowed InvalidAuthData
              ltac:(discriminate) ltac:(discriminate)) as (Hsrc & _ & Hmax).
  set (r := allowed_confirmations_loop InvalidAuthData allowed) in *.
  assert (Hoffered : ∀ g, to_UserAction g = r → r ≠ InvalidAuthData → g ∈ allowed).
  { intros g Hg Hr. destruct Hsrc as [Heq | (g' & Hin & Hg')]; [contradiction|].
    assert (g = g') as ->; [|exact Hin].
    destruct (to_UserAction_guard g) as (H1 & H2 & H3 & H4).
    destruct (to_UserAction_guard g') as (H1' & H2' & H3' & H4').
    pose proof (to_UserAction_not_password g) as Hpw.
    rewrite Hg in *. rewrite Hg' in *.
    destruct r; try contradiction; try congruence;
      first [ rewrite H1, H1' by reflexivity
            | rewrite H2, H2' by reflexivity
            | rewrite H3, H3' by reflexivity
            | rewrite H4, H4' by reflexivity ]; reflexivity. }
  unfold highest_priority_challenge.
  destruct (bool_decide_reflect (k_EAuthSessionGuardType_DeviceCode ∈ allowed))
    as [Hdev|Hdev].
  { specialize (Hmax _ Hdev). simpl in Hmax. destruct r; simpl in Hmax; try lia.
    reflexivity. }
  destruct (bool_decide_reflect (k_EAuthSessionGuardType_EmailCode ∈ allowed))
    as [Hmail|Hmail].
  { specialize (Hmax _ Hmail). simpl in Hmax.
    destruct r eqn:Hr; simpl in Hmax; try lia; [reflexivity|].
    exfalso. apply Hdev.
    apply (Hoffered k_EAuthSessionGuardType_DeviceCode); [reflexivity | discriminate]. }
  destruct (bool_decide_reflect
              (k_EAuthSessionGuardType_DeviceConfirmation ∈ allowed))
    as [Hconf|Hconf].
  { specialize (Hmax _ Hconf). simpl in Hmax.
    destruct r eqn:Hr; simpl in Hmax; try lia; [| |reflexivity]; exfalso.
    - apply Hmail.
      apply (Hoffered k_EAuthSessionGuardType_EmailCode); [reflexivity | discriminate].
    - apply Hdev.
      apply (Hoffered k_EAuthSessionGuardType_DeviceCode); [reflexivity | discriminate]. }
  destruct (bool_decide_reflect (k_EAuthSessionGuardType_None ∈ allowed))
    as [Hnone|Hnone].
  { specialize (Hmax _ Hnone). simpl in Hmax.
    destruct r eqn:Hr; simpl in Hmax; try lia; [reflexivity| | |]; exfalso.
    - apply Hmail.
      apply (Hoffered k_EAuthSessionGuardType_EmailCode); [reflexivity | discriminate].
    - apply Hdev.
      apply (Hoffered k_EAuthSessionGuardType_DeviceCode); [reflexivity | discriminate].
    - apply Hconf.
      apply (Hoffered k_EAuthSessionGuardType_DeviceConfirmation);
        [reflexivity | discriminate]. }
  destruct Hsrc as [Heq | (g & Hin & Hg)]; [exact Heq|].
  pose proof (to_UserAction_not_password g) as Hpw.
  destruct (to_UserAction_guard g) as (H1 & H2 & H3 & H4).
  destruct r eqn:Hr; try reflexivity; exfalso.
  - apply Hnone. rewrite <- (H4 Hg). exact Hin.
  - apply Hmail. rewrite <- (H2 Hg). exact Hin.
  - apply Hdev. rewrite <- (H1 Hg). exact Hin.
  - apply Hconf. rewrite <- (H3 Hg). exact Hin.
  - contradiction.
Qed.

(** C1. A successful login reply that finds the login future pending
    resolves it with polling data whose auth method is the challenge of
    the highest-priority guard type that the reply offers, in the order
    device code > email code > device confirmation > none:
    [PhoneTwoFactorInputRequired] if the device code is in the list,
    otherwise [EmailTwoFactorInputRequired] if the email code is,
    otherwise [PhoneTwoFactorConfirmRequired] if the device confirmation
    is, otherwise [NoActionRequired] if none is, and [InvalidAuthData] if
    the list offers none of the four. When the email code and the device
    code are both offered, wherever they stand in the list, it is
    [PhoneTwoFactorInputRequired]. *)
Theorem login_handler_resolves_highest_priority `{EResultCodes}
    (self : LoginState) (message : BeginAuthSessionResponse) :
  _login_future self = Some Pending →
  ∃ data,
    (_login_handler self EResult_OK message).2 = Return ()
    ∧ _login_future (_login_handler self EResult_OK message).1
      = Some (Done (EResult_OK, Some data))
    ∧ polling_auth_method data
      = highest_priority_challenge (allowed_confirmations message)
    ∧ (k_EAuthSessionGuardType_EmailCode ∈ allowed_confirmations message →
       k_EAuthSessionGuardType_DeviceCode ∈ allowed_confirmations message →
       polling_auth_method data = PhoneTwoFactorInputRequired).
Proof.
  intros Hfut. rewrite (login_handler_ok_pending self message Hfut).
  eexists. split; [reflexivity|]. split; [reflexivity|]. simpl.
  rewrite allowed_confirmations_loop_highest. split; [reflexivity|].
  intros _ Hdev. unfold highest_priority_challenge.
  rewrite bool_decide_eq_true_2 by exact Hdev. reflexivity.
Qed.

Lemma login_handler_resolves_highest_priority_witness :
  _login_future (mkLoginState None (Some Pending)) = Some Pending
  ∧ ∃ data,
      (@_login_handler steam_eresult (mkLoginState None (Some Pending)) 1
         sample_login_reply).2 = Return ()
      ∧ _login_future (@_login_handler steam_eresult
                         (mkLoginState None (Some Pending)) 1
                         sample_login_reply).1
        = Some (Done (1, Some data))
      ∧ polling_auth_method data = PhoneTwoFactorInputRequired.
Proof.
  split; [reflexivity|].
  destruct (@login_handler_resolves_highest_priority steam_eresult
              (mkLoginState None (Some Pending)) sample_login_reply eq_refl)
    as (data & Hret & Hfut & Hrule & _).
  exists data. split; [exact Hret|]. split; [exact Hfut|].
  rewrite Hrule. vm_compute. reflexivity.
Defined.

Example login_email_alone :
  allowed_confirmations_loop InvalidAuthData [ k_EAuthSessionGuardType_EmailCode ]
  = EmailTwoFactorInputRequired.
Proof. reflexivity. Qed.

Example login_email_then_device :
  allowed_confirmations_loop InvalidAuthData
    [ k_EAuthSessionGuardType_EmailCode; k_EAuthSessionGuardType_DeviceCode ]
  = PhoneTwoFactorInputRequired.
Proof. reflexivity. Qed.

Example login_device_then_email :
  allowed_confirmations_loop InvalidAuthData
    [ k_EAuthSessionGuardType_DeviceCode; k_EAuthSessionGuardType_EmailCode ]
  = PhoneTwoFactorInputRequired.
Proof. reflexivity. Qed.

Example login_confirmation_after_email :
  allowed_confirmations_loop InvalidAuthData
    [ k_EAuthSessionGuardType_None; k_EAuthSessionGuardType_EmailCode;
      k_EAuthSessionGuardType_DeviceConfirmation ]
  = EmailTwoFactorInputRequired.
Proof. reflexivity. Qed.

Example login_only_unknown_guards :
  allowed_confirmations_loop InvalidAuthData
    [ k_EAuthSessionGuardType_MachineToken ]
  = InvalidAuthData.
Proof. reflexivity. Qed.

(** C8, as the specification states it, fails. The older
    [_log_on_handler] does not translate an unsolicited reply: with no
    login future pending, the reply [TryAnotherCM] (48) fails the
    handler's assertion, where the translated error would be
    [BackendNotAvailable]. In [steam_network]'s [_login_handler] a reply
    whose result is [OK] cannot be translated either. *)
Lemma login_reply_without_future_not_translated :
  Legacy._log_on_handler None (@EResult_TryAnotherCM steam_eresult)
  = (None, Raise AssertionError)
  ∧ @translate_error steam_eresult (@EResult_TryAnotherCM steam_eresult)
    = Return (mkGalaxyError BackendNotAvailable 48)
  ∧ _login_future (mkLoginState None None) = None
  ∧ (@_login_handler steam_eresult (mkLoginState None None)
       (@EResult_OK steam_eresult) sample_login_reply).2
    = Raise AssertionError
  ∧ ∀ e, Raise (A := unit) AssertionError ≠ Raise (GalaxyException e).
Proof.
  split; [reflexivity|]. split; [vm_compute; reflexivity|].
  split; [reflexivity|]. split; [vm_compute; reflexivity|].
  intros e. discriminate.
Qed.

(** A reply that finds the completed future of an earlier login cannot
    set its result again. *)
Lemma login_handler_done_future `{EResultCodes} (self : LoginState)
    (first : Z * option SteamPollingData) (result : Z)
    (message : BeginAuthSessionResponse) :
  _login_future self = Some (Done first) →
  (_login_handler self result message).2 = Raise InvalidStateError
  ∧ _login_future (_login_handler self result message).1 = Some (Done first).
Proof.
  intros Hfut. unfold _login_handler.
  destruct self as [sid fut]. simpl in Hfut. subst fut.
  destruct (result =? EResult_OK); simpl.
  - destruct (decide (sid ≠ Some (steamid message))); simpl;
      split; reflexivity.
  - split; reflexivity.
Qed.

(** C8, amended. A login reply that arrives when no login future is
    pending is never silently dropped: the handler raises. In
    [steam_network]'s [_login_handler] the reply is raised to the caller
    as [translate_error(result)], the handler's state unchanged, when the
    future slot is empty and the result is not [OK]; when the slot still
    holds the completed future of an earlier login, the reply raises
    [InvalidStateError] instead and that future keeps its result. The
    older [_log_on_handler] does not translate: with an empty slot it
    fails its assertion, and with a completed future it raises
    [InvalidStateError], whatever the result. *)
Theorem login_reply_without_future_is_raised `{EResultCodes}
    (self : LoginState) (result : Z) (message : BeginAuthSessionResponse) :
  _login_future self ≠ Some Pending →
  (∃ e, (_login_handler self result message).2 = Raise e)
  ∧ (_login_future self = None →
     result ≠ EResult_OK →
     ∃ e, translate_error result = Return e
          ∧ _login_handler self result message
            = (self, Raise (GalaxyException e)))
  ∧ (∀ first, _login_future self = Some (Done first) →
       (_login_handler self result message).2 = Raise InvalidStateError
       ∧ _login_future (_login_handler self result message).1
         = Some (Done first))
  ∧ Legacy._log_on_handler None result = (None, Raise AssertionError)
  ∧ (∀ first, Legacy._log_on_handler (Some (Done first)) result
              = (Some (Done first), Raise InvalidStateError)).
Proof.
  intros Hpending. split; [|split; [|split; [|split]]].
  - destruct (_login_future self) as [[|first]|] eqn:Hfut.
    + contradiction.
    + exists InvalidStateError.
      apply (login_handler_done_future self first result message Hfut).
    + destruct (Z.eqb_spec result EResult_OK) as [->|Hne].
      * exists AssertionError. apply login_handler_ok_no_future. exact Hfut.
      * destruct (login_handler_error_no_future self result message Hfut Hne)
          as (e & _ & Hrun).
        exists (GalaxyException e). rewrite Hrun. reflexivity.
  - intros Hfut Hne. apply login_handler_error_no_future; assumption.
  - intros first Hfut. apply login_handler_done_future. exact Hfut.
  - reflexivity.
  - intros first. reflexivity.
Qed.

Lemma login_reply_without_future_is_raised_witness :
  _login_future (mkLoginState None None) ≠ Some Pending
  ∧ 48 ≠ @EResult_OK steam_eresult
  ∧ @_login_handler steam_eresult (mkLoginState None None) 48 sample_login_reply
    = (mkLoginState None None,
       Raise (GalaxyException (mkGalaxyError BackendNotAvailable 48))).
Proof.
  assert (Hne : 48 ≠ @EResult_OK steam_eresult) by (simpl; lia).
  assert (Hpending : _login_future (mkLoginState None None) ≠ Some Pending)
    by discriminate.
  split; [exact Hpending|]. split; [exact Hne|].
  destruct (@login_reply_without_future_is_raised steam_eresult
              (mkLoginState None None) 48 sample_login_reply Hpending)
    as (_ & Hempty & _).
  destruct (Hempty eq_refl Hne) as (e & He & Hrun).
  rewrite Hrun. vm_compute in He. congruence.
Defined.

(** ** The friends cache *)

(** An incremental update never fails, and it leaves in the cache the
    users it declares friends and the cached users it does not declare
    [None_]. The keys of a dict are distinct. *)
Lemma relationship_loop_incremental items : ∀ st,
  NoDup items.*1 →
  ∃ st', relationship_loop true items st = (st', Return ())
         ∧ initial_friends st' = initial_friends st
         ∧ ∀ u, u ∈ loop_cache st'
                ↔ (u, EFriendRelationship_Friend) ∈ items
                  ∨ (u ∈ loop_cache st ∧ (u, EFriendRelationship_None_) ∉ items).
Proof.
  induction items as [|[v r] rest IH]; intros st Hnodup; simpl.
  - exists st. split; [reflexivity|]. split; [reflexivity|].
    intros u. rewrite !elem_of_nil. tauto.
  - rewrite fmap_cons in Hnodup. apply NoDup_cons in Hnodup as [Hv Hnodup].
    assert (Hrest : ∀ r', (v, r') ∉ rest).
    { intros r' Hin. apply Hv. apply list_elem_of_fmap.
      exists (v, r'). split; [reflexivity | exact Hin]. }
    pose proof (Hrest EFriendRelationship_None_) as HrestN.
    pose proof (Hrest EFriendRelationship_Friend) as HrestF.
    destruct (decide (r = EFriendRelationship_Friend)) as [->|Hfriend].
    { destruct (IH (mkRelationshipLoop (FriendsCache.add (loop_cache st) v)
                      (initial_friends st) (new_friends st ++ [v])) Hnodup)
        as (st' & Hrun & Hinit & Hmem).
      exists st'. split; [exact Hrun|]. split; [exact Hinit|].
      intros u. rewrite Hmem. simpl. unfold FriendsCache.add.
      rewrite !elem_of_cons, elem_of_union, elem_of_singleton.
      destruct (decide (u = v)) as [->|Hne]; naive_solver. }
    destruct (decide (r = EFriendRelationship_None_)) as [->|Hnone].
    { destruct (IH (mkRelationshipLoop (FriendsCache.remove (loop_cache st) v)
                      (initial_friends st) (new_friends st)) Hnodup)
        as (st' & Hrun & Hinit & Hmem).
      exists st'. split; [exact Hrun|]. split; [exact Hinit|].
      intros u. rewrite Hmem. simpl. unfold FriendsCache.remove.
      rewrite !elem_of_cons, elem_of_difference, elem_of_singleton.
      destruct (decide (u = v)) as [->|Hne]; naive_solver. }
    destruct (IH st Hnodup) as (st' & Hrun & Hinit & Hmem).
    exists st'. split; [exact Hrun|]. split; [exact Hinit|].
    intros u. rewrite Hmem, !elem_of_cons. naive_solver.
Qed.

(** A full snapshot without [None_] entries collects the declared friends
    and does not touch the cache inside the loop. *)
Lemma relationship_loop_snapshot items : ∀ st,
  (∀ u, (u, EFriendRelationship_None_) ∉ items) →
  ∃ st', relationship_loop false items st = (st', Return ())
         ∧ loop_cache st' = loop_cache st
         ∧ new_friends st' = new_friends st
         ∧ ∀ u, u ∈ initial_friends st'
                ↔ u ∈ initial_friends st
                  ∨ (u, EFriendRelationship_Friend) ∈ items.
Proof.
  induction items as [|[v r] rest IH]; intros st Hnone; simpl.
  - exists st. split; [reflexivity|]. split; [reflexivity|].
    split; [reflexivity|]. intros u. rewrite elem_of_nil. tauto.
  - assert (Hnone' : ∀ u, (u, EFriendRelationship_None_) ∉ rest).
    { intros u Hin. apply (Hnone u). right. exact Hin. }
    destruct (decide (r = EFriendRelationship_Friend)) as [->|Hfriend].
    { destruct (IH (mkRelationshipLoop (loop_cache st)
                      (initial_friends st ++ [v]) (new_friends st)) Hnone')
        as (st' & Hrun & Hcache & Hnew & Hmem).
      exists st'. split; [exact Hrun|]. split; [exact Hcache|].
      split; [exact Hnew|].
      intros u. rewrite Hmem. simpl.
      rewrite elem_of_app, list_elem_of_singleton, elem_of_cons.
      naive_solver. }
    destruct (decide (r = EFriendRelationship_None_)) as [->|Hr].
    { exfalso. apply (Hnone v). left. }
    destruct (IH st Hnone') as (st' & Hrun & Hcache & Hnew & Hmem).
    exists st'. split; [exact Hrun|]. split; [exact Hcache|].
    split; [exact Hnew|].
    intros u. rewrite Hmem, elem_of_cons. naive_solver.
Qed.

(** A full snapshot with a [None_] entry fails the assertion, the cache
    as it was. *)
Lemma relationship_loop_snapshot_none items : ∀ st,
  (∃ u, (u, EFriendRelationship_None_) ∈ items) →
  ∃ st', relationship_loop false items st = (st', Raise AssertionError)
         ∧ loop_cache st' = loop_cache st.
Proof.
  induction items as [|[v r] rest IH]; intros st [u Hu]; simpl.
  - inversion Hu.
  - destruct (decide (r = EFriendRelationship_Friend)) as [->|Hfriend].
    { apply elem_of_cons in Hu as [Hu|Hu]; [discriminate|].
      destruct (IH (mkRelationshipLoop (loop_cache st)
                      (initial_friends st ++ [v]) (new_friends st))
                   (ex_intro _ u Hu)) as (st' & Hrun & Hcache).
      exists st'. split; [exact Hrun | exact Hcache]. }
    destruct (decide (r = EFriendRelationship_None_)) as [->|Hr].
    { exists st. split; reflexivity. }
    apply elem_of_cons in Hu as [Hu|Hu]; [congruence|].
    apply IH. exists u. exact Hu.
Qed.

Lemma dict_items_functional {A} (items : list (Z * A)) k x y :
  NoDup items.*1 → (k, x) ∈ items → (k, y) ∈ items → x = y.
Proof.
  intros Hnodup Hx Hy.
  apply (elem_of_list_to_map (M := gmap Z) items k x Hnodup) in Hx.
  apply (elem_of_list_to_map (M := gmap Z) items k y Hnodup) in Hy.
  congruence.
Qed.

(** C5, as the specification states it, fails: the handler acts on the
    relationships [Friend] and [None_] only. A cached user whom an
    incremental update declares blocked stays in the cache, although the
    relationship the server declares for that user is not [Friend]. *)
Lemma blocked_friend_stays_cached :
  NoDup sample_blocked_update.*1
  ∧ (7, EFriendRelationship_Other 1) ∈ sample_blocked_update
  ∧ EFriendRelationship_Other 1 ≠ EFriendRelationship_Friend
  ∧ (_relationship_handler sample_friends_state true sample_blocked_update).2
    = Return ()
  ∧ 7 ∈ _friends_cache
          (_relationship_handler sample_friends_state true sample_blocked_update).1.
Proof.
  split; [compute_done|].
  split; [left|]. split; [discriminate|]. split; [reflexivity|].
  compute_done.
Qed.

(** C5, amended. The keys of the update being distinct: an incremental
    update never fails and leaves in the cache exactly the users it
    declares [Friend] and the cached users it does not declare [None_], so
    a user who goes from friend to [None_] is absent afterwards and a user
    declared with any other relationship is neither added nor removed. A
    full snapshot without a [None_] entry replaces the contents with
    exactly the users it declares [Friend]; a full snapshot with a [None_]
    entry fails the handler's assertion and leaves the cache as it was. *)
Theorem relationship_handler_cache (self : RelationshipState)
    (incremental : bool) (friends : list (Z * EFriendRelationship)) :
  NoDup friends.*1 →
  (incremental = true →
     (_relationship_handler self incremental friends).2 = Return ()
     ∧ (∀ u, u ∈ _friends_cache (_relationship_handler self incremental friends).1
             ↔ (u, EFriendRelationship_Friend) ∈ friends
               ∨ (u ∈ _friends_cache self
                  ∧ (u, EFriendRelationship_None_) ∉ friends))
     ∧ (∀ u, (u, EFriendRelationship_None_) ∈ friends →
             u ∉ _friends_cache (_relationship_handler self incremental friends).1))
  ∧ (incremental = false →
     (∀ u, (u, EFriendRelationship_None_) ∉ friends) →
     (_relationship_handler self incremental friends).2 = Return ()
     ∧ ∀ u, u ∈ _friends_cache (_relationship_handler self incremental friends).1
            ↔ (u, EFriendRelationship_Friend) ∈ friends)
  ∧ (incremental = false →
     (∃ u, (u, EFriendRelationship_None_) ∈ friends) →
     (_relationship_handler self incremental friends).2 = Raise AssertionError
     ∧ _friends_cache (_relationship_handler self incremental friends).1
       = _friends_cache self).
Proof.
  intros Hnodup. split; [|split].
  - intros ->.
    destruct (relationship_loop_incremental friends
                (mkRelationshipLoop (_friends_cache self) [] []) Hnodup)
      as (st' & Hrun & Hinit & Hmem).
    unfold _relationship_handler. rewrite Hrun. simpl.
    assert (Hcache : ∀ u, u ∈ _friends_cache
                (if bool_decide (new_friends st' ≠ [])
                 then mkRelationshipState (loop_cache st')
                        (friends_sent self
                           ++ [get_friends_statuses;
                               get_user_infos (new_friends st') _STATUS_FLAG])
                 else mkRelationshipState (loop_cache st') (friends_sent self))
              ↔ u ∈ loop_cache st').
    { intros u. destruct (bool_decide (new_friends st' ≠ [])); reflexivity. }
    split; [destruct (bool_decide (new_friends st' ≠ [])); reflexivity|].
    split.
    + intros u. rewrite Hcache, Hmem. reflexivity.
    + intros u Hnone. rewrite Hcache, Hmem. intros [Hfriend | [_ Hnot]].
      * pose proof (dict_items_functional friends u _ _ Hnodup Hnone Hfriend).
        discriminate.
      * contradiction.
  - intros -> Hnone.
    destruct (relationship_loop_snapshot friends
                (mkRelationshipLoop (_friends_cache self) [] []) Hnone)
      as (st' & Hrun & Hcache & Hnew & Hmem).
    unfold _relationship_handler. rewrite Hrun. simpl in *. rewrite Hnew. simpl.
    split; [reflexivity|].
    intros u. unfold FriendsCache.reset. rewrite elem_of_list_to_set, Hmem.
    rewrite elem_of_nil. tauto.
  - intros -> Hnone.
    destruct (relationship_loop_snapshot_none friends
                (mkRelationshipLoop (_friends_cache self) [] []) Hnone)
      as (st' & Hrun & Hcache).
    unfold _relationship_handler. rewrite Hrun. simpl.
    split; [reflexivity | exact Hcache].
Qed.

Lemma relationship_handler_cache_witness :
  NoDup sample_friend_update.*1
  ∧ (_relationship_handler sample_friends_state true sample_friend_update).2
    = Return ()
  ∧ (7 ∉ _friends_cache
           (_relationship_handler sample_friends_state true sample_friend_update).1)
  ∧ (8 ∈ _friends_cache
           (_relationship_handler sample_friends_state true sample_friend_update).1).
Proof.
  assert (Hnodup : NoDup sample_friend_update.*1)
    by (compute_done).
  split; [exact Hnodup|].
  destruct (relationship_handler_cache sample_friends_state true
              sample_friend_update Hnodup) as [Hinc _].
  destruct (Hinc eq_refl) as (Hret & Hmem & Hgone).
  split; [exact Hret|]. split.
  - apply Hgone. left.
  - apply Hmem. left. right. left.
Defined.

(** ** License reconciliation *)

Lemma elem_of_batch_package_ids p steam_licenses :
  p ∈ batch_package_ids steam_licenses
  ↔ ∃ steam_license, steam_license ∈ steam_licenses
                     ∧ p = str (package_id (license steam_license)).
Proof.
  unfold batch_package_ids. rewrite elem_of_list_to_set, list_elem_of_fmap.
  split; intros (x & H1 & H2); exists x; tauto.
Qed.

Lemma batch_package_ids_cons steam_license steam_licenses :
  batch_package_ids (steam_license :: steam_licenses)
  = {[ str (package_id (license steam_license)) ]}
    ∪ batch_package_ids steam_licenses.
Proof. reflexivity. Qed.

Lemma elem_of_batch_not_resolved p (resolved : gset string) steam_licenses :
  p ∈ batch_package_ids
        (filter (λ steam_license,
                   str (package_id (license steam_license)) ∉ resolved)
                steam_licenses)
  ↔ p ∈ batch_package_ids steam_licenses ∧ p ∉ resolved.
Proof.
  rewrite !elem_of_batch_package_ids. split.
  - intros (x & Hx & ->). apply list_elem_of_filter in Hx as [Hnot Hx].
    split; [exists x; split; [exact Hx | reflexivity] | exact Hnot].
  - intros [(x & Hx & ->) Hnot]. exists x. split; [|reflexivity].
    apply list_elem_of_filter. split; assumption.
Qed.

(** [start_packages_import] adds each package of the batch that the cache
    does not hold yet, with no app, and touches nothing else. *)
Lemma start_packages_import_lookup steam_licenses : ∀ (cache : GamesCache) p,
  GamesCache.start_packages_import cache steam_licenses !! p
  = match cache !! p with
    | Some apps => Some apps
    | None =>
        if decide (p ∈ batch_package_ids steam_licenses) then Some ∅ else None
    end.
Proof.
  unfold GamesCache.start_packages_import.
  induction steam_licenses as [|a rest IH]; intros cache p; simpl.
  - destruct (cache !! p); [reflexivity|].
    destruct (decide (p ∈ batch_package_ids [])) as [Hin|]; [|reflexivity].
    apply elem_of_batch_package_ids in Hin as (x & Hx & _). inversion Hx.
  - rewrite IH. rewrite batch_package_ids_cons.
    set (pa := str (package_id (license a))).
    destruct (cache !! pa) as [apps_a|] eqn:Hpa.
    + destruct (cache !! p) as [apps|] eqn:Hp; [reflexivity|].
      assert (p ≠ pa) by congruence.
      destruct (decide (p ∈ batch_package_ids rest));
        destruct (decide (p ∈ {[pa]} ∪ batch_package_ids rest));
        try reflexivity; set_solver.
    + destruct (decide (p = pa)) as [->|Hne].
      * rewrite lookup_insert_eq, Hpa.
        destruct (decide (pa ∈ {[pa]} ∪ batch_package_ids rest));
          [reflexivity | set_solver].
      * rewrite lookup_insert_ne by congruence.
        destruct (cache !! p); [reflexivity|].
        destruct (decide (p ∈ batch_package_ids rest));
          destruct (decide (p ∈ {[pa]} ∪ batch_package_ids rest));
          try reflexivity; set_solver.
Qed.

Lemma start_packages_import_package_ids (cache : GamesCache) steam_licenses :
  GamesCache.get_package_ids (GamesCache.start_packages_import cache steam_licenses)
  = GamesCache.get_package_ids cache ∪ batch_package_ids steam_licenses.
Proof.
  unfold GamesCache.get_package_ids. apply set_eq. intros p.
  rewrite elem_of_union, !elem_of_dom, start_packages_import_lookup.
  destruct (cache !! p) as [apps|].
  - split; [intros _; left; eauto | eauto].
  - destruct (decide (p ∈ batch_package_ids steam_licenses)).
    + split; [intros _; right; assumption | eauto].
    + split; [intros [? ?]; discriminate |].
      intros [[? ?] | ?]; [discriminate | contradiction].
Qed.

Lemma elem_of_resolved_packages (cache : GamesCache) p :
  p ∈ GamesCache.get_resolved_packages cache
  ↔ ∃ apps, cache !! p = Some apps ∧ apps ≠ ∅.
Proof.
  unfold GamesCache.get_resolved_packages. rewrite elem_of_dom.
  split.
  - intros [apps Happs]. apply map_lookup_filter_Some in Happs as [H1 H2].
    exists apps. split; assumption.
  - intros (apps & H1 & H2). exists apps.
    apply map_lookup_filter_Some. split; assumption.
Qed.

Lemma resolved_packages_subseteq (cache : GamesCache) :
  GamesCache.get_resolved_packages cache ⊆ GamesCache.get_package_ids cache.
Proof.
  intros p Hp. apply elem_of_resolved_packages in Hp as (apps & Hp & _).
  unfold GamesCache.get_package_ids. apply elem_of_dom. eauto.
Qed.

Lemma start_packages_import_resolved (cache : GamesCache) steam_licenses :
  GamesCache.get_resolved_packages
    (GamesCache.start_packages_import cache steam_licenses)
  = GamesCache.get_resolved_packages cache.
Proof.
  apply set_eq. intros p.
  rewrite !elem_of_resolved_packages.
  setoid_rewrite start_packages_import_lookup.
  destruct (cache !! p) as [apps|]; [reflexivity|].
  destruct (decide (p ∈ batch_package_ids steam_licenses)).
  - split; [intros (apps & Heq & Hne); congruence|].
    intros (apps & Heq & _). discriminate.
  - split; intros (apps & Heq & _); discriminate.
Qed.

(** A package is resolved as soon as an app is associated with it. *)
Lemma update_license_apps_resolved (cache : GamesCache) package appid :
  package ∈ GamesCache.get_resolved_packages
              (GamesCache.update_license_apps cache package appid).
Proof.
  apply elem_of_resolved_packages. unfold GamesCache.update_license_apps.
  eexists. rewrite lookup_insert_eq. split; [reflexivity|]. set_solver.
Qed.

(** Importing packages that the cache already holds changes nothing. *)
Lemma start_packages_import_known (cache : GamesCache) steam_licenses :
  batch_package_ids steam_licenses ⊆ GamesCache.get_package_ids cache →
  GamesCache.start_packages_import cache steam_licenses = cache.
Proof.
  intros Hsub. apply map_eq. intros p.
  rewrite start_packages_import_lookup.
  destruct (cache !! p) as [apps|] eqn:Hp; [reflexivity|].
  destruct (decide (p ∈ batch_package_ids steam_licenses)) as [Hin|];
    [|reflexivity].
  apply Hsub in Hin. unfold GamesCache.get_package_ids in Hin.
  apply elem_of_dom in Hin as [? ?]. congruence.
Qed.

Lemma takes_reset_path_true (cache : GamesCache) steam_licenses :
  takes_reset_path cache steam_licenses = true
  ↔ Z.of_nat (size (batch_package_ids steam_licenses)) < 12000
    ∧ batch_package_ids steam_licenses ≠ GamesCache.get_package_ids cache.
Proof.
  unfold takes_reset_path.
  rewrite andb_true_iff, Z.ltb_lt, bool_decide_eq_true. reflexivity.
Qed.

(** C3. When the distinct package identifiers of a batch differ from the
    set the cache holds and there are fewer than 12000 of them, the
    handler empties the cache and imports the whole batch into it: no
    package keeps an associated app, the packages being imported are
    exactly those of the batch, and package info is requested once, for
    every license of the batch and not only for those that are new. *)
Theorem license_import_full_resync (self : LicenseState)
    (steam_licenses : list SteamLicense) :
  batch_package_ids steam_licenses
  ≠ GamesCache.get_package_ids (_games_cache self) →
  Z.of_nat (size (batch_package_ids steam_licenses)) < 12000 →
  let self' := _license_import_handler self steam_licenses in
  _games_cache self'
  = GamesCache.start_packages_import
      (GamesCache.reset_storing_map (_games_cache self)) steam_licenses
  ∧ (∀ p apps, _games_cache self' !! p = Some apps → apps = ∅)
  ∧ GamesCache.get_resolved_packages (_games_cache self') = ∅
  ∧ GamesCache.get_package_ids (_games_cache self')
    = batch_package_ids steam_licenses
  ∧ licenses_sent self'
    = licenses_sent self ++ [get_packages_info steam_licenses].
Proof.
  intros Hdiff Hsize. simpl. unfold _license_import_handler.
  assert (Hreset : takes_reset_path (_games_cache self) steam_licenses = true)
    by (apply takes_reset_path_true; split; assumption).
  rewrite Hreset. simpl. unfold GamesCache.reset_storing_map.
  split; [reflexivity|]. split; [|split; [|split]].
  - intros p apps. rewrite start_packages_import_lookup, lookup_empty.
    destruct (decide (p ∈ batch_package_ids steam_licenses)); congruence.
  - rewrite start_packages_import_resolved. apply set_eq. intros p.
    rewrite elem_of_resolved_packages. setoid_rewrite lookup_empty.
    split; [intros (? & ? & _); discriminate | set_solver].
  - rewrite start_packages_import_package_ids.
    unfold GamesCache.get_package_ids. rewrite dom_empty_L. set_solver.
  - reflexivity.
Qed.

(** C4. Delivering a batch a second time, with nothing else happening to
    the cache in between, does not take the reset path, whatever the first
    delivery did. The second delivery leaves the cache, and so the set of
    resolved packages, unchanged, and requests package info only for the
    licenses whose package has no associated app. *)
Theorem license_import_twice_is_incremental (self : LicenseState)
    (steam_licenses : list SteamLicense) :
  let self1 := _license_import_handler self steam_licenses in
  let self2 := _license_import_handler self1 steam_licenses in
  takes_reset_path (_games_cache self1) steam_licenses = false
  ∧ _games_cache self2 = _games_cache self1
  ∧ GamesCache.get_resolved_packages (_games_cache self2)
    = GamesCache.get_resolved_packages (_games_cache self1)
  ∧ licenses_sent self2
    = licenses_sent self1
      ++ [get_packages_info
            (filter (λ steam_license,
                       str (package_id (license steam_license))
                       ∉ GamesCache.get_resolved_packages (_games_cache self1))
                    steam_licenses)].
Proof.
  simpl.
  set (self1 := _license_import_handler self steam_licenses).
  assert (Hids : Z.of_nat (size (batch_package_ids steam_licenses)) < 12000 →
                 GamesCache.get_package_ids (_games_cache self1)
                 = batch_package_ids steam_licenses).
  { intros Hsize. unfold self1, _license_import_handler.
    destruct (takes_reset_path (_games_cache self) steam_licenses) eqn:Hpath; simpl.
    - rewrite start_packages_import_package_ids.
      unfold GamesCache.reset_storing_map, GamesCache.get_package_ids.
      rewrite dom_empty_L. set_solver.
    - rewrite start_packages_import_package_ids.
      assert (Hsame : batch_package_ids steam_licenses
                      = GamesCache.get_package_ids (_games_cache self)).
      { destruct (decide (batch_package_ids steam_licenses
                          = GamesCache.get_package_ids (_games_cache self)))
          as [Heq|Hne]; [exact Heq|].
        assert (takes_reset_path (_games_cache self) steam_licenses = true)
          by (apply takes_reset_path_true; split; assumption).
        congruence. }
      apply set_eq. intros p. rewrite elem_of_union, elem_of_batch_not_resolved.
      rewrite <- Hsame. tauto. }
  assert (Hknown : batch_package_ids steam_licenses
                   ⊆ GamesCache.get_package_ids (_games_cache self1)).
  { unfold self1, _license_import_handler.
    destruct (takes_reset_path (_games_cache self) steam_licenses); simpl;
      rewrite start_packages_import_package_ids; intros p Hp.
    - apply elem_of_union. right. exact Hp.
    - apply elem_of_union.
      destruct (decide (p ∈ GamesCache.get_resolved_packages (_games_cache self)))
        as [Hres|Hres].
      + left. apply resolved_packages_subseteq. exact Hres.
      + right. apply elem_of_batch_not_resolved. split; assumption. }
  assert (Hpath : takes_reset_path (_games_cache self1) steam_licenses = false).
  { apply not_true_is_false. intros Htrue.
    apply takes_reset_path_true in Htrue as [Hsize Hdiff].
    apply Hdiff. symmetry. apply Hids. exact Hsize. }
  assert (Hcache : _games_cache (_license_import_handler self1 steam_licenses)
                   = _games_cache self1).
  { unfold _license_import_handler at 1. rewrite Hpath. simpl.
    apply start_packages_import_known. intros p Hp.
    apply elem_of_batch_not_resolved in Hp as [Hp _]. apply Hknown, Hp. }
  split; [exact Hpath|]. split; [exact Hcache|]. split; [rewrite Hcache; reflexivity|].
  unfold _license_import_handler at 1. rewrite Hpath. reflexivity.
Qed.

Lemma license_import_full_resync_witness :
  batch_package_ids sample_batch
  ≠ GamesCache.get_package_ids (_games_cache sample_license_state)
  ∧ Z.of_nat (size (batch_package_ids sample_batch)) < 12000
  ∧ GamesCache.get_resolved_packages
      (_games_cache (_license_import_handler sample_license_state sample_batch))
    = ∅
  ∧ GamesCache.get_package_ids
      (_games_cache (_license_import_handler sample_license_state sample_batch))
    = batch_package_ids sample_batch
  ∧ licenses_sent (_license_import_handler sample_license_state sample_batch)
    = [get_packages_info sample_batch].
Proof.
  assert (Hdiff : batch_package_ids sample_batch
                  ≠ GamesCache.get_package_ids (_games_cache sample_license_state))
    by compute_done.
  assert (Hsize : Z.of_nat (size (batch_package_ids sample_batch)) < 12000)
    by compute_done.
  split; [exact Hdiff|]. split; [exact Hsize|].
  destruct (license_import_full_resync sample_license_state sample_batch
              Hdiff Hsize) as (_ & _ & Hres & Hids & Hsent).
  split; [exact Hres|]. split; [exact Hids | exact Hsent].
Defined.

(** The cache of the sample held package 1 resolved; after the resync it
    is unresolved like the others, and the second delivery asks for all
    four packages again without resetting anything. *)
Example license_import_sample_second_delivery :
  licenses_sent
    (_license_import_handler
       (_license_import_handler sample_license_state sample_batch) sample_batch)
  = [ get_packages_info sample_batch; get_packages_info sample_batch ].
Proof. vm_compute. reflexivity. Qed.

(** With the package set unchanged, the resolved package is skipped. *)
Example license_import_sample_incremental :
  licenses_sent
    (_license_import_handler sample_license_state
       [ sample_license 1; sample_license 2; sample_license 3 ])
  = [ get_packages_info [ sample_license 2; sample_license 3 ] ].
Proof. vm_compute. reflexivity. Qed.

(** ** Achievements *)

Section achievements_facts.
Variable client_get_achievements : string → outcome (list (Z * string)).

(** C6. For a game that the prepared context records with zero
    playtime, [get_unlocked_achievements] returns the empty list and
    leaves the plugin as it was: the achievements cache is neither read
    nor written and nothing is fetched from the backend, so no event is
    added to the log. *)
Theorem zero_playtime_returns_empty (self : SteamPlugin) (game_id : string)
    (context : gmap string GameTime) (game_time : GameTime) :
  context !! game_id = Some game_time →
  time_played game_time = 0 →
  get_unlocked_achievements client_get_achievements self game_id context
  = (self, Return []).
Proof.
  intros Hctx Hzero. unfold get_unlocked_achievements, get_game_time.
  rewrite Hctx, Hzero. reflexivity.
Qed.

(** With playtime recorded, the first thing the call does is to consult
    the cache. *)
Lemma played_game_consults_cache self game_id context game_time :
  context !! game_id = Some game_time →
  time_played game_time ≠ 0 →
  ∃ later,
    plugin_events
      (get_unlocked_achievements client_get_achievements self game_id context).1
    = plugin_events self
      ++ [cache_get game_id
            (mkFingerprint (last_played_time game_time) (time_played game_time))]
      ++ later.
Proof.
  intros Hctx Hplayed. unfold get_unlocked_achievements, get_game_time.
  rewrite Hctx. apply Z.eqb_neq in Hplayed. rewrite Hplayed.
  destruct (Cache.get _ _ _) as [cached|]; simpl.
  - exists []. reflexivity.
  - destruct (client_get_achievements game_id) as [fetched|e]; simpl;
      [destruct (new_Achievements fetched); simpl|];
      eexists; rewrite <- !app_assoc; reflexivity.
Qed.
End achievements_facts.

Lemma zero_playtime_returns_empty_witness :
  sample_context !! "440" = Some (mkGameTime "440" 0 None)
  ∧ time_played (mkGameTime "440" 0 None) = 0
  ∧ get_unlocked_achievements sample_backend sample_plugin "440" sample_context
    = (sample_plugin, Return []).
Proof.
  assert (Hctx : sample_context !! "440" = Some (mkGameTime "440" 0 None))
    by (vm_compute; reflexivity).
  split; [exact Hctx|]. split; [reflexivity|].
  exact (zero_playtime_returns_empty sample_backend sample_plugin "440"
           sample_context (mkGameTime "440" 0 None) Hctx eq_refl).
Defined.

Example unnamed_achievement_is_not_cached :
  get_unlocked_achievements (λ _, Return [ (1500000000, "") ]) sample_plugin
    "570" sample_context
  = (mkSteamPlugin ∅ false
       [ cache_get "570" (mkFingerprint (Some 1600000000) 120);
         backend_get_achievements "570" ],
     Raise AssertionError).
Proof. vm_compute. reflexivity. Qed.

Example played_game_is_fetched_and_cached :
  get_unlocked_achievements sample_backend sample_plugin "570" sample_context
  = (mkSteamPlugin
       {[ "570" := (mkFingerprint (Some 1600000000) 120,
                    [ mkAchievement 1500000000 None (Some "First Blood") ]) ]}
       true
       [ cache_get "570" (mkFingerprint (Some 1600000000) 120);
         backend_get_achievements "570";
         cache_update "570"
           [ mkAchievement 1500000000 None (Some "First Blood") ]
           (mkFingerprint (Some 1600000000) 120) ],
     Return [ mkAchievement 1500000000 None (Some "First Blood") ]).
Proof. vm_compute. reflexivity. Qed.

Lemma cache_get_update_eq cache game_id achievements fingerprint :
  Cache.get (Cache.update cache game_id achievements fingerprint) game_id fingerprint
  = Some achievements.
Proof.
  unfold Cache.get, Cache.update. rewrite lookup_insert_eq.
  destruct (decide (fingerprint = fingerprint)); [reflexivity | contradiction].
Qed.

Lemma cache_get_update_other_fingerprint cache game_id achievements fingerprint other :
  other ≠ fingerprint →
  Cache.get (Cache.update cache game_id achievements fingerprint) game_id other = None.
Proof.
  intros Hne. unfold Cache.get, Cache.update. rewrite lookup_insert_eq.
  destruct (decide (fingerprint = other)); [congruence | reflexivity].
Qed.

Lemma cache_get_update_other_game cache game_id other_game achievements fingerprint fp :
  other_game ≠ game_id →
  Cache.get (Cache.update cache other_game achievements fingerprint) game_id fp
  = Cache.get cache game_id fp.
Proof.
  intros Hne. unfold Cache.get, Cache.update.
  rewrite lookup_insert_ne by exact Hne. reflexivity.
Qed.

(** After a history of writes, the entry of a game is what the most recent
    write to that game stored. *)
Lemma apply_writes_lookup writes : ∀ cache game_id w,
  last_write_to game_id writes = Some w →
  apply_writes cache writes !! game_id
  = Some (write_fingerprint w, write_achievements w).
Proof.
  induction writes as [|w0 writes IH] using rev_ind; intros cache game_id w Hlast.
  - discriminate.
  - unfold apply_writes. rewrite foldl_app. simpl.
    fold (apply_writes cache writes).
    unfold last_write_to in Hlast. rewrite filter_app in Hlast.
    unfold Cache.update.
    destruct (decide (write_game_id w0 = game_id)) as [Heq|Hne].
    + rewrite filter_cons_True, filter_nil in Hlast by exact Heq.
      rewrite last_snoc in Hlast. injection Hlast as ->.
      rewrite Heq. apply lookup_insert_eq.
    + rewrite filter_cons_False, filter_nil, app_nil_r in Hlast by exact Hne.
      rewrite lookup_insert_ne by exact Hne. apply IH. exact Hlast.
Qed.

(** C7. If the most recent write to [game_id] stored the achievements [A]
    under the fingerprint [F], then [get] with [F] returns exactly [A],
    [get] with any other fingerprint is a miss, after which
    [get_unlocked_achievements] fetches from the backend; and [update]
    replaces whatever entry the game had. *)
Theorem cache_get_after_most_recent_update (cache : Cache)
    (writes : list CacheWrite) (game_id : string) (w : CacheWrite) :
  last_write_to game_id writes = Some w →
  Cache.get (apply_writes cache writes) game_id (write_fingerprint w)
  = Some (write_achievements w)
  ∧ (∀ F', F' ≠ write_fingerprint w →
       Cache.get (apply_writes cache writes) game_id F' = None)
  ∧ (∀ client self context game_time,
       _achievements_cache self = apply_writes cache writes →
       context !! game_id = Some game_time →
       time_played game_time ≠ 0 →
       mkFingerprint (last_played_time game_time) (time_played game_time)
       ≠ write_fingerprint w →
       backend_get_achievements game_id
       ∈ plugin_events (get_unlocked_achievements client self game_id context).1)
  ∧ (∀ A F A' F',
       Cache.update (Cache.update cache game_id A F) game_id A' F'
       = Cache.update cache game_id A' F').
Proof.
  intros Hlast.
  pose proof (apply_writes_lookup writes cache game_id w Hlast) as Hlookup.
  split; [|split; [|split]].
  - unfold Cache.get. rewrite Hlookup.
    destruct (decide (write_fingerprint w = write_fingerprint w));
      [reflexivity | contradiction].
  - intros F' Hne. unfold Cache.get. rewrite Hlookup.
    destruct (decide (write_fingerprint w = F')); [congruence | reflexivity].
  - intros client self context game_time Hcache Hctx Hplayed Hfp.
    unfold get_unlocked_achievements, get_game_time.
    rewrite Hctx. apply Z.eqb_neq in Hplayed. rewrite Hplayed.
    unfold Cache.get. rewrite Hcache, Hlookup.
    destruct (decide (write_fingerprint w = _)) as [Heq|_]; [congruence|].
    unfold _get_achievements. simpl.
    destruct (client game_id) as [fetched|e]; simpl;
      [destruct (new_Achievements fetched); simpl|]; set_solver.
  - intros A F A' F'. unfold Cache.update. apply insert_insert_eq.
Qed.

Lemma cache_get_after_most_recent_update_witness :
  last_write_to "570" sample_writes
  = Some (mkCacheWrite "570"
            [ mkAchievement 1500000000 None (Some "First Blood") ]
            (mkFingerprint (Some 1600000000) 120))
  ∧ Cache.get (apply_writes ∅ sample_writes) "570"
      (mkFingerprint (Some 1600000000) 120)
    = Some [ mkAchievement 1500000000 None (Some "First Blood") ]
  ∧ Cache.get (apply_writes ∅ sample_writes) "570" (mkFingerprint None 60) = None.
Proof.
  assert (Hlast : last_write_to "570" sample_writes
                  = Some (mkCacheWrite "570"
                            [ mkAchievement 1500000000 None (Some "First Blood") ]
                            (mkFingerprint (Some 1600000000) 120)))
    by (vm_compute; reflexivity).
  split; [exact Hlast|].
  destruct (cache_get_after_most_recent_update ∅ sample_writes "570" _ Hlast)
    as (Hhit & Hmiss & _ & _).
  split; [exact Hhit|]. apply Hmiss. discriminate.
Defined.

(** ** Public-profile checks *)

Section user_profile_facts.
Variable http_get_text : string → outcome string.
Variable fromstring : string → outcome Element.

Lemma verify_root_never_false root : verify_root root ≠ Return false.
Proof.
  unfold verify_root.
  repeat match goal with
         | |- context [if ?b then _ else _] => destruct b
         end; discriminate.
Qed.

Lemma _verify_is_public_never_false url :
  (_verify_is_public http_get_text fromstring url).2 ≠ Return false.
Proof.
  unfold _verify_is_public. simpl.
  destruct (http_get_text url) as [text|e]; simpl; [|discriminate].
  destruct (fromstring text) as [root|e]; simpl; [|discriminate].
  apply verify_root_never_false.
Qed.

Lemma _verify_is_public_parsed url text root :
  http_get_text url = Return text → fromstring text = Return root →
  _verify_is_public http_get_text fromstring url = ([url], verify_root root).
Proof.
  intros Hget Hparse. unfold _verify_is_public. rewrite Hget. simpl.
  rewrite Hparse. reflexivity.
Qed.

Lemma verify_root_error root txt :
  find_child "error" root ≫= text_of = Some txt → txt ≠ "" →
  verify_root root
  = if decide (txt = "The specified profile could not be found.")
    then Raise ProfileDoesNotExist
    else if decide (txt = "This profile is private.")
    then Raise ProfileIsNotPublic
    else Raise ParseError.
Proof.
  intros Htxt Hne. unfold verify_root. rewrite Htxt. simpl.
  unfold str_truth. rewrite bool_decide_eq_false_2 by exact Hne. simpl.
  destruct (decide (txt = "The specified profile could not be found."))
    as [->|H1].
  { reflexivity. }
  rewrite bool_decide_eq_false_2 by congruence.
  destruct (decide (txt = "This profile is private.")) as [->|H2].
  { reflexivity. }
  rewrite bool_decide_eq_false_2 by congruence. reflexivity.
Qed.

Lemma verify_root_no_game root :
  from_option str_truth false (find_child "error" root ≫= text_of) = false →
  find_games_game root = None →
  verify_root root = Raise NotPublicGameDetailsOrUserHasNoGames.
Proof.
  intros Herr Hgame. unfold verify_root. rewrite Herr, Hgame. reflexivity.
Qed.
End user_profile_facts.

(** C10. Whatever the HTTP client and the XML parser answer, neither
    check returns [False]. Once the response is parsed, the check raises
    [ProfileDoesNotExist] on the error text "The specified profile could
    not be found.", [ProfileIsNotPublic] on "This profile is private.",
    [ParseError] on any other error text that is not empty, and
    [NotPublicGameDetailsOrUserHasNoGames] when there is no error text and
    no game element; [check_is_public_by_custom_url] and, for a truthy id,
    [check_is_public_by_steam_id] run that check on their URL. With a
    falsy id [check_is_public_by_steam_id] raises [ValueError] and has
    requested nothing. *)
Theorem public_profile_checks_never_return_false
    (http_get_text : string → outcome string)
    (fromstring : string → outcome Element) :
  (∀ username,
     (check_is_public_by_custom_url http_get_text fromstring username).2
     ≠ Return false)
  ∧ (∀ steam_id,
       (check_is_public_by_steam_id http_get_text fromstring steam_id).2
       ≠ Return false)
  ∧ (∀ url text root,
       http_get_text url = Return text → fromstring text = Return root →
       (find_child "error" root ≫= text_of
        = Some "The specified profile could not be found." →
        (_verify_is_public http_get_text fromstring url).2
        = Raise ProfileDoesNotExist)
       ∧ (find_child "error" root ≫= text_of = Some "This profile is private." →
          (_verify_is_public http_get_text fromstring url).2
          = Raise ProfileIsNotPublic)
       ∧ (∀ txt, find_child "error" root ≫= text_of = Some txt →
                 txt ≠ "" →
                 txt ≠ "The specified profile could not be found." →
                 txt ≠ "This profile is private." →
                 (_verify_is_public http_get_text fromstring url).2
                 = Raise ParseError)
       ∧ (from_option str_truth false (find_child "error" root ≫= text_of)
          = false →
          find_games_game root = None →
          (_verify_is_public http_get_text fromstring url).2
          = Raise NotPublicGameDetailsOrUserHasNoGames))
  ∧ (∀ username,
       check_is_public_by_custom_url http_get_text fromstring username
       = _verify_is_public http_get_text fromstring
           (_BASE_URL +:+ "/id/" +:+ username +:+ "/games/?xml=1"))
  ∧ (∀ steam_id, steam_id_truth steam_id = true →
       check_is_public_by_steam_id http_get_text fromstring steam_id
       = _verify_is_public http_get_text fromstring
           (_BASE_URL +:+ "/profiles/" +:+ format_steam_id steam_id
              +:+ "/games/?xml=1"))
  ∧ (∀ steam_id, steam_id_truth steam_id = false →
       check_is_public_by_steam_id http_get_text fromstring steam_id
       = ([], Raise (ValueError ("Incorrect Steam64 ID value: "
                                   +:+ format_steam_id steam_id)))).
Proof.
  split; [|split; [|split; [|split; [|split]]]].
  - intros username. apply _verify_is_public_never_false.
  - intros steam_id. unfold check_is_public_by_steam_id.
    destruct (steam_id_truth steam_id); simpl; [|discriminate].
    apply _verify_is_public_never_false.
  - intros url text root Hget Hparse.
    rewrite (_verify_is_public_parsed _ _ url text root Hget Hparse). simpl.
    split; [|split; [|split]].
    + intros Htxt. rewrite (verify_root_error root _ Htxt) by discriminate.
      reflexivity.
    + intros Htxt. rewrite (verify_root_error root _ Htxt) by discriminate.
      reflexivity.
    + intros txt Htxt Hne H1 H2. rewrite (verify_root_error root _ Htxt Hne).
      destruct (decide (txt = _)); [contradiction|].
      destruct (decide (txt = _)); [contradiction|]. reflexivity.
    + apply verify_root_no_game.
  - reflexivity.
  - intros steam_id Htruth. unfold check_is_public_by_steam_id.
    rewrite Htruth. reflexivity.
  - intros steam_id Htruth. unfold check_is_public_by_steam_id.
    rewrite Htruth. reflexivity.
Qed.

Example private_profile_is_not_public :
  check_is_public_by_steam_id sample_http (λ _, Return sample_private_profile)
    (id_int 76561197960265729)
  = ([ "https://steamcommunity.com/profiles/76561197960265729/games/?xml=1" ],
     Raise ProfileIsNotPublic).
Proof. vm_compute. reflexivity. Qed.

Example empty_profile_has_no_games :
  (check_is_public_by_custom_url sample_http (λ _, Return sample_empty_profile)
     "gaben").2
  = Raise NotPublicGameDetailsOrUserHasNoGames.
Proof. vm_compute. reflexivity. Qed.

Example public_profile_is_public :
  check_is_public_by_custom_url sample_http (λ _, Return sample_public_profile)
    "gaben"
  = ([ "https://steamcommunity.com/id/gaben/games/?xml=1" ], Return true).
Proof. vm_compute. reflexivity. Qed.

Example falsy_steam_id_is_rejected :
  check_is_public_by_steam_id sample_http (λ _, Return sample_public_profile)
    (id_int 0)
  = ([], Raise (ValueError "Incorrect Steam64 ID value: 0")).
Proof. vm_compute. reflexivity. Qed.

(** ** The Witcher 3 rule *)

(** C9. [does_witcher_3_dlcs_set_resolve_to_GOTY] is true exactly when the
    expansion pass "355880" is owned or both components "378648" and
    "378649" are. It is a function of the set alone: it yields a boolean
    on every set and has no state to change. *)
Theorem does_witcher_3_dlcs_set_resolve_to_GOTY_spec (owned_dlc_app_ids : gset string) :
  does_witcher_3_dlcs_set_resolve_to_GOTY owned_dlc_app_ids = true
  ↔ "355880" ∈ owned_dlc_app_ids
    ∨ ("378648" ∈ owned_dlc_app_ids ∧ "378649" ∈ owned_dlc_app_ids).
Proof.
  unfold does_witcher_3_dlcs_set_resolve_to_GOTY,
    W3_EXPANSION_PASS, W3_DLCS_GOTY_COMPONENTS.
  rewrite orb_true_iff, !bool_decide_eq_true, size_empty_iff.
  split.
  - intros [Hpass | Hcomp]; [left; exact Hpass | right].
    split.
    + destruct (decide ("378648" ∈ owned_dlc_app_ids)); [assumption | set_solver].
    + destruct (decide ("378649" ∈ owned_dlc_app_ids)); [assumption | set_solver].
  - intros [Hpass | [H1 H2]]; [left; exact Hpass | right]. set_solver.
Qed.

Example w3_components_only :
  does_witcher_3_dlcs_set_resolve_to_GOTY {[ "378648"; "378649"; "1" ]} = true.
Proof. vm_compute. reflexivity. Qed.

Example w3_one_component :
  does_witcher_3_dlcs_set_resolve_to_GOTY {[ "378648"; "292030" ]} = false.
Proof. vm_compute. reflexivity. Qed.

(** * Further properties of the protocol clients and of the plugin *)

(** ** Guard types and user actions *)

(** X1. Translating an action to a guard type and back gives the action
    again, except for [PasswordRequired], which no guard type stands for
    and which comes back as [InvalidAuthData]. *)
Theorem to_UserAction_after_to_guard (actionRequired : UserActionRequired) :
  to_UserAction (to_CAuthentication_AllowedConfirmation actionRequired)
  = if decide (actionRequired = PasswordRequired) then InvalidAuthData
    else actionRequired.
Proof. destruct actionRequired; reflexivity. Qed.

(** X2. Translating a guard type to an action and back gives the guard
    type again exactly for five guard types: none, email code, device
    code, device confirmation and unknown. Every other guard type comes
    back as unknown. *)
Theorem to_guard_after_to_UserAction (auth_enum : EAuthSessionGuardType) :
  (to_CAuthentication_AllowedConfirmation (to_UserAction auth_enum) = auth_enum
   ↔ auth_enum ∈ [ k_EAuthSessionGuardType_None;
                   k_EAuthSessionGuardType_EmailCode;
                   k_EAuthSessionGuardType_DeviceCode;
                   k_EAuthSessionGuardType_DeviceConfirmation;
                   k_EAuthSessionGuardType_Unknown ])
  ∧ (to_CAuthentication_AllowedConfirmation (to_UserAction auth_enum)
     ≠ auth_enum →
     to_CAuthentication_AllowedConfirmation (to_UserAction auth_enum)
     = k_EAuthSessionGuardType_Unknown).
Proof.
  split.
  - rewrite !elem_of_cons, elem_of_nil.
    destruct auth_enum; simpl; split;
      solve [ intros _; tauto
            | intros Heq; discriminate Heq
            | intros Hin; reflexivity
            | intros Hin; exfalso;
              repeat (destruct Hin as [Hin|Hin]; [discriminate Hin|]);
              exact Hin ].
  - destruct auth_enum; simpl; intros Hne;
      first [ reflexivity | exfalso; apply Hne; reflexivity ].
Qed.

(** ** The key exchange and the authentication calls *)

Section authentication_facts.
Context `{EResultCodes} `{EResultAuthCodes}.

(** X3. A key exchange always completes and never raises: the reply
    resolves the fresh future and the call returns. With [OK] it returns
    [PasswordRequired] and the key of the reply and registers the
    auth-lost callback; with any other result it returns
    [InvalidAuthData] without a key and leaves the callback slot as it
    was. *)
Theorem rsa_exchange_completes (self : AuthState) (auth_lost_handler : nat)
    (result mod_ exp timestamp : Z) :
  rsa_exchange self auth_lost_handler result mod_ exp timestamp
  = Some
      (if result =? EResult_OK then
         (mkAuthState
            (Some (Done (result, Some (mkSteamPublicKey mod_ exp timestamp))))
            (Some auth_lost_handler),
          Return (PasswordRequired, Some (mkSteamPublicKey mod_ exp timestamp)))
       else
         (mkAuthState (Some (Done (result, None))) (_auth_lost_handler self),
          Return (InvalidAuthData, None))).
Proof.
  unfold rsa_exchange, get_rsa_public_key_begin, _rsa_handler. simpl.
  unfold get_rsa_public_key_resume.
  destruct (result =? EResult_OK); reflexivity.
Qed.

(** X4. A login reply delivered a second time does not replace the first:
    once the login future is done, [_login_handler] raises
    [InvalidStateError] and the future keeps the value it had. *)
Theorem login_handler_second_reply (self : LoginState)
    (first : Z * option SteamPollingData) (result : Z)
    (message : BeginAuthSessionResponse) :
  _login_future self = Some (Done first) →
  (_login_handler self result message).2 = Raise InvalidStateError
  ∧ _login_future (_login_handler self result message).1 = Some (Done first).
Proof.
  intros Hfut. unfold _login_handler.
  destruct self as [sid fut]. simpl in Hfut. subst fut.
  destruct (result =? EResult_OK); simpl.
  - destruct (decide (sid ≠ Some (steamid message))); simpl;
      split; reflexivity.
  - split; reflexivity.
Qed.

(** X5. [authenticate_password] never fails the assertion of
    [translate_error]: whatever it raises is the translation of the
    reply's result, which is then not [OK], and the auth-lost callback is
    left as it was; whenever it returns, the callback is registered. *)
Theorem authenticate_password_raises_translation (slot : option nat)
    (result : Z) (data : option SteamPollingData) (auth_lost_handler : nat) :
  (∀ e, (authenticate_password_resume slot (result, data) auth_lost_handler).2
        = Raise e →
        result ≠ EResult_OK
        ∧ (∃ translated, translate_error result = Return translated
                         ∧ e = GalaxyException translated)
        ∧ (authenticate_password_resume slot (result, data) auth_lost_handler).1
          = slot)
  ∧ (∀ r, (authenticate_password_resume slot (result, data) auth_lost_handler).2
          = Return r →
          (authenticate_password_resume slot (result, data) auth_lost_handler).1
          = Some auth_lost_handler).
Proof.
  unfold authenticate_password_resume.
  destruct (Z.eqb_spec result EResult_OK) as [Hok|Hne].
  { split; [intros e He; discriminate | intros r _; reflexivity]. }
  destruct (result =? EResult_AccountLogonDenied).
  { split; [intros e He; discriminate | intros r _; reflexivity]. }
  destruct (result =? EResult_AccountLoginDeniedNeedTwoFactor).
  { split; [intros e He; discriminate | intros r _; reflexivity]. }
  destruct (py_in result rejected_credentials_codes).
  { split; [intros e He; discriminate | intros r _; reflexivity]. }
  simpl. destruct (translate_error_returns result Hne) as [k Hk].
  unfold raise_translate_error. rewrite Hk. simpl. split.
  - intros e He. injection He as <-.
    split; [exact Hne|]. split; [|reflexivity].
    exists (mkGalaxyError k result). split; reflexivity.
  - intros r Hr. discriminate.
Qed.

(** X6. A login always completes: the reply resolves the fresh future,
    and [authenticate_password] goes on with the result of the reply and,
    if the result is [OK], with polling data that carry the fields of the
    message and the auth method chosen by the loop; with any other result
    there are no polling data. *)
Theorem login_exchange_completes (self : LoginState) (slot : option nat)
    (auth_lost_handler : nat) (result : Z) (message : BeginAuthSessionResponse) :
  ∃ self',
    login_exchange self slot auth_lost_handler result message
    = Some (self',
            authenticate_password_resume slot
              (result,
               if result =? EResult_OK then
                 Some (mkSteamPollingData (client_id message) (steamid message)
                         (request_id message) (interval message)
                         (allowed_confirmations_loop InvalidAuthData
                            (allowed_confirmations message))
                         (extended_error_message message))
               else None)
              auth_lost_handler)
    ∧ _login_future self' ≠ Some Pending.
Proof.
  unfold login_exchange, authenticate_password_begin, _login_handler.
  generalize (authenticate_password_resume slot). intros resume. simpl.
  destruct (result =? EResult_OK); simpl.
  - destruct (decide (user_info_steam_id self ≠ Some (steamid message))); simpl;
      eexists; (split; [reflexivity | discriminate]).
  - eexists; (split; [reflexivity | discriminate]).
Qed.

(** X7. In [authenticate_token] of the older client the branch for
    [InvalidPassword] raises what [translate_error] would raise: for every
    result but [OK] the call raises the translation of the result and
    leaves the auth-lost callback as it was. *)
Theorem authenticate_token_raises_translation (slot : option nat)
    (result : Z) (auth_lost_handler : nat) :
  LegacyAuth.authenticate_token_resume slot result auth_lost_handler
  = if result =? EResult_OK
    then (Some auth_lost_handler, Return LegacyAuth.NoActionRequired)
    else (slot, raise_translate_error result).
Proof.
  unfold LegacyAuth.authenticate_token_resume.
  destruct (Z.eqb_spec result EResult_OK) as [Hok|Hne]; [reflexivity|].
  destruct (Z.eqb_spec result EResult_InvalidPassword) as [Hpw|Hnpw];
    [|reflexivity].
  unfold raise_translate_error, translate_error.
  apply Z.eqb_neq in Hne. rewrite Hne. simpl.
  assert (py_in result invalid_credentials_codes = true) as ->.
  { apply py_in_true. unfold invalid_credentials_codes. rewrite Hpw. left. }
  reflexivity.
Qed.

(** When the server logs the client off, the auth-lost callback is
    invoked exactly once, with the translation of the result, if a
    callback is registered and the result is not [OK]. With no callback
    registered nothing happens, whatever the result; with a callback and
    the result [OK] the assertion of [translate_error] fails and the
    callback is not invoked. *)
Lemma log_off_handler_calls (result : Z) :
  _log_off_handler None result = ([], Return ())
  ∧ (∀ handler, _log_off_handler (Some handler) EResult_OK
                = ([], Raise AssertionError))
  ∧ (result ≠ EResult_OK →
     ∀ handler, ∃ e, translate_error result = Return e
                     ∧ error_result e = result
                     ∧ _log_off_handler (Some handler) result
                       = ([(handler, e)], Return ())).
Proof.
  split; [reflexivity|]. split.
  - intros handler. unfold _log_off_handler.
    rewrite translate_error_ok. reflexivity.
  - intros Hne handler. destruct (translate_error_returns result Hne) as [k Hk].
    exists (mkGalaxyError k result). split; [exact Hk|]. split; [reflexivity|].
    unfold _log_off_handler. rewrite Hk. reflexivity.
Qed.

(** X8. After an authentication that returned, a log-off with a result
    other than [OK] reaches the callback that this authentication
    registered, with the translation of the log-off result. *)
Theorem log_off_after_authentication (slot : option nat)
    (reply : Z * option SteamPollingData) (auth_lost_handler : nat)
    (r : AuthResult) (result : Z) :
  (authenticate_password_resume slot reply auth_lost_handler).2 = Return r →
  result ≠ EResult_OK →
  ∃ e, translate_error result = Return e
       ∧ _log_off_handler
           (authenticate_password_resume slot reply auth_lost_handler).1 result
         = ([(auth_lost_handler, e)], Return ()).
Proof.
  intros Hret Hne. destruct reply as [reply_result data].
  assert (Hslot : (authenticate_password_resume slot (reply_result, data)
                     auth_lost_handler).1 = Some auth_lost_handler).
  { revert Hret. unfold authenticate_password_resume.
    repeat match goal with
           | |- context [if ?b then _ else _] => destruct b; [reflexivity|]
           end.
    simpl. unfold raise_translate_error.
    destruct (translate_error reply_result); discriminate. }
  rewrite Hslot. destruct (translate_error_returns result Hne) as [k Hk].
  exists (mkGalaxyError k result). split; [exact Hk|].
  unfold _log_off_handler. rewrite Hk. reflexivity.
Qed.
End authentication_facts.

Lemma login_handler_second_reply_witness :
  _login_future (mkLoginState None (Some (Done (1, None)))) = Some (Done (1, None))
  ∧ (@_login_handler steam_eresult (mkLoginState None (Some (Done (1, None))))
       48 sample_login_reply).2 = Raise InvalidStateError.
Proof.
  split; [reflexivity|].
  exact (proj1 (@login_handler_second_reply steam_eresult
                  (mkLoginState None (Some (Done (1, None)))) (1, None) 48
                  sample_login_reply eq_refl)).
Defined.

Lemma log_off_after_authentication_witness :
  (@authenticate_password_resume steam_eresult steam_eresult_auth None
     (63, None) 5).2 = Return (returned_action EmailTwoFactorInputRequired)
  ∧ 34 ≠ @EResult_OK steam_eresult
  ∧ @_log_off_handler steam_eresult
      (@authenticate_password_resume steam_eresult steam_eresult_auth None
         (63, None) 5).1 34
    = ([(5%nat, mkGalaxyError AccessDenied 34)], Return ()).
Proof.
  assert (Hret : (@authenticate_password_resume steam_eresult steam_eresult_auth
                    None (63, None) 5).2
                 = Return (returned_action EmailTwoFactorInputRequired))
    by (vm_compute; reflexivity).
  assert (Hne : 34 ≠ @EResult_OK steam_eresult) by (simpl; lia).
  split; [exact Hret|]. split; [exact Hne|].
  destruct (@log_off_after_authentication steam_eresult steam_eresult_auth None
              (63, None) 5%nat _ 34 Hret Hne) as (e & He & Hrun).
  rewrite Hrun. vm_compute in He. congruence.
Defined.

(** ** Requests of the relationship handler *)

Lemma relationship_loop_lists incremental items : ∀ st,
  (incremental = false → declares_none items = false) →
  ∃ cache,
    relationship_loop incremental items st
    = (mkRelationshipLoop cache
         (initial_friends st
            ++ if incremental then [] else declared_friends items)
         (new_friends st
            ++ if incremental then declared_friends items else []),
       Return ())
    ∧ (incremental = false → cache = loop_cache st).
Proof.
  unfold declares_none, declared_friends.
  induction items as [|[v r] rest IH]; intros st Hnone; simpl.
  - exists (loop_cache st). destruct st, incremental; simpl;
      rewrite ?app_nil_r; split; reflexivity.
  - assert (Hnone' : incremental = false →
              bool_decide (EFriendRelationship_None_ ∈ rest.*2) = false).
    { intros Hinc. specialize (Hnone Hinc).
      apply bool_decide_eq_false in Hnone. apply bool_decide_eq_false.
      intros Hin. apply Hnone. rewrite fmap_cons. right. exact Hin. }
    destruct (decide (r = EFriendRelationship_Friend)) as [->|Hfriend].
    { rewrite filter_cons_True by reflexivity. simpl.
      destruct incremental.
      - destruct (IH (mkRelationshipLoop (FriendsCache.add (loop_cache st) v)
                        (initial_friends st) (new_friends st ++ [v])) Hnone')
          as (cache & Hrun & _).
        exists cache. rewrite Hrun. simpl. rewrite <- app_assoc.
        split; [reflexivity | discriminate].
      - destruct (IH (mkRelationshipLoop (loop_cache st)
                        (initial_friends st ++ [v]) (new_friends st)) Hnone')
          as (cache & Hrun & Hcache).
        exists cache. rewrite Hrun. simpl. rewrite <- app_assoc.
        split; [reflexivity | exact Hcache]. }
    rewrite filter_cons_False by exact Hfriend.
    destruct (decide (r = EFriendRelationship_None_)) as [->|Hr].
    { destruct incremental.
      - destruct (IH (mkRelationshipLoop (FriendsCache.remove (loop_cache st) v)
                        (initial_friends st) (new_friends st)) Hnone')
          as (cache & Hrun & _).
        exists cache. rewrite Hrun. split; [reflexivity | discriminate].
      - specialize (Hnone eq_refl). apply bool_decide_eq_false in Hnone.
        exfalso. apply Hnone. rewrite fmap_cons. left. }
    destruct (IH st Hnone') as (cache & Hrun & Hcache).
    exists cache. rewrite Hrun. split; [reflexivity | exact Hcache].
Qed.

(** X9. An incremental update never fails, and it asks for statuses and
    user infos exactly when it declares at least one friend: the friends
    statuses and then the infos of the declared friends, in their order in
    the update. An update that only removes or ignores users sends
    nothing. *)
Theorem relationship_incremental_requests (self : RelationshipState)
    (friends : list (Z * EFriendRelationship)) :
  (_relationship_handler self true friends).2 = Return ()
  ∧ friends_sent (_relationship_handler self true friends).1
    = friends_sent self
      ++ if bool_decide (declared_friends friends ≠ [])
         then [ get_friends_statuses;
                get_user_infos (declared_friends friends) 1106 ]
         else [].
Proof.
  destruct (relationship_loop_lists true friends
              (mkRelationshipLoop (_friends_cache self) [] [])
              ltac:(discriminate)) as (cache & Hrun & _).
  unfold _relationship_handler. rewrite Hrun. simpl.
  destruct (bool_decide (declared_friends friends ≠ [])); simpl.
  - split; reflexivity.
  - rewrite app_nil_r. split; reflexivity.
Qed.

(** X10. A full snapshot that declares some user [None_] fails the
    assertion and changes nothing and sends nothing. Any other full
    snapshot replaces the cache by the declared friends and sends exactly
    three requests: the persona state, the friends statuses and the infos
    of the declared friends in their order in the snapshot. *)
Theorem relationship_snapshot_outcome (self : RelationshipState)
    (friends : list (Z * EFriendRelationship)) :
  _relationship_handler self false friends
  = if declares_none friends then (self, Raise AssertionError)
    else (mkRelationshipState (list_to_set (declared_friends friends))
            (friends_sent self
               ++ [ set_persona_state_Invisible; get_friends_statuses;
                    get_user_infos (declared_friends friends) 1106 ]),
          Return ()).
Proof.
  destruct (declares_none friends) eqn:Hnone.
  - assert (Hex : ∃ u, (u, EFriendRelationship_None_) ∈ friends).
    { unfold declares_none in Hnone. apply bool_decide_eq_true in Hnone.
      apply list_elem_of_fmap in Hnone as ([u r] & Hr & Hin).
      simpl in Hr. subst r. exists u. exact Hin. }
    destruct (relationship_loop_snapshot_none friends
                (mkRelationshipLoop (_friends_cache self) [] []) Hex)
      as (st' & Hrun & Hcache).
    unfold _relationship_handler. rewrite Hrun, Hcache. simpl.
    destruct self; reflexivity.
  - destruct (relationship_loop_lists false friends
                (mkRelationshipLoop (_friends_cache self) [] [])
                (λ _, Hnone)) as (cache & Hrun & Hcache).
    unfold _relationship_handler. rewrite Hrun. simpl. reflexivity.
Qed.

(** ** Requests of the license import handler *)

(** X11. Every delivery of a batch sends exactly one request for package
    info. The licenses it names are taken from the batch, in the order of
    the batch, and they include every license of the batch whose package
    had no associated app when the batch arrived. *)
Theorem license_import_requests (self : LicenseState)
    (steam_licenses : list SteamLicense) :
  ∃ requested,
    licenses_sent (_license_import_handler self steam_licenses)
    = licenses_sent self ++ [get_packages_info requested]
    ∧ requested `sublist_of` steam_licenses
    ∧ ∀ steam_license,
        steam_license ∈ steam_licenses →
        str (package_id (license steam_license))
        ∉ GamesCache.get_resolved_packages (_games_cache self) →
        steam_license ∈ requested.
Proof.
  unfold _license_import_handler.
  destruct (takes_reset_path (_games_cache self) steam_licenses); simpl.
  - exists steam_licenses. split; [reflexivity|]. split; [reflexivity|]. tauto.
  - eexists. split; [reflexivity|]. split; [apply sublist_filter|].
    intros steam_license Hin Hnot. apply list_elem_of_filter. split; assumption.
Qed.

(** X12. An empty batch empties the cache: whatever packages and apps the
    cache held, after the delivery of a batch without licenses it holds
    none, and the request for package info names no license. *)
Theorem license_import_empty_batch (self : LicenseState) :
  _license_import_handler self []
  = mkLicenseState ∅ (licenses_sent self ++ [get_packages_info []]).
Proof.
  unfold _license_import_handler.
  destruct (takes_reset_path (_games_cache self) []) eqn:Hpath; simpl.
  - reflexivity.
  - f_equal.
    destruct (decide (batch_package_ids []
                      = GamesCache.get_package_ids (_games_cache self)))
      as [Heq|Hne].
    + unfold GamesCache.get_package_ids, batch_package_ids in Heq.
      simpl in Heq. symmetry in Heq. apply dom_empty_inv_L in Heq. exact Heq.
    + assert (takes_reset_path (_games_cache self) [] = true).
      { apply takes_reset_path_true. split; [|exact Hne].
        vm_compute. reflexivity. }
      congruence.
Qed.

(** ** The translations cache *)

Section translations_facts.
Context {Translation : Type}.
Implicit Types (self : TranslationsState Translation)
  (translations : option (list Translation)).

Lemma translations_handler_entry self appid translations :
  is_Some (_translations_cache (_translations_handler self appid translations)
             !! appid).
Proof.
  unfold _translations_handler.
  destruct (negb (appid =? 0) && translations_truth translations) eqn:Huse.
  - destruct translations as [[|first rest]|];
      try (apply andb_true_iff in Huse as [_ Huse]; discriminate).
    simpl. rewrite lookup_insert_eq. eauto.
  - destruct (bool_decide_reflect (_translations_cache self !! appid = None))
      as [Hnone|Hsome]; simpl.
    + rewrite lookup_insert_eq. eauto.
    + destruct (_translations_cache self !! appid); eauto; congruence.
Qed.

(** X13. After [_translations_handler] the app is a key of the
    translations cache, the entries of all other apps are as before, and
    at most one localization request was sent, for this app. *)
Theorem translations_handler_keys self appid translations :
  is_Some (_translations_cache (_translations_handler self appid translations)
             !! appid)
  ∧ (∀ other, other ≠ appid →
       _translations_cache (_translations_handler self appid translations)
         !! other
       = _translations_cache self !! other)
  ∧ (translations_sent (_translations_handler self appid translations)
     = translations_sent self
     ∨ translations_sent (_translations_handler self appid translations)
       = translations_sent self ++ [appid]).
Proof.
  unfold _translations_handler.
  destruct (negb (appid =? 0) && translations_truth translations) eqn:Huse.
  - destruct translations as [[|first rest]|];
      try (apply andb_true_iff in Huse as [_ Huse]; discriminate).
    simpl. split; [rewrite lookup_insert_eq; eauto|].
    split; [intros other Hne; apply lookup_insert_ne; congruence | left; reflexivity].
  - destruct (bool_decide_reflect (_translations_cache self !! appid = None))
      as [Hnone|Hsome]; simpl.
    + split; [rewrite lookup_insert_eq; eauto|].
      split; [intros other Hne; apply lookup_insert_ne; congruence
             | right; reflexivity].
    + split; [destruct (_translations_cache self !! appid); eauto; congruence|].
      split; [reflexivity | left; reflexivity].
Qed.

(** X14. A translation that the cache holds is never lost: the handler
    replaces it only by another translation, never by [None], and sends no
    request for that app. *)
Theorem translations_handler_keeps_translation self appid translations t :
  _translations_cache self !! appid = Some (Some t) →
  (∃ t', _translations_cache (_translations_handler self appid translations)
           !! appid = Some (Some t'))
  ∧ translations_sent (_translations_handler self appid translations)
    = translations_sent self.
Proof.
  intros Hheld. unfold _translations_handler.
  destruct (negb (appid =? 0) && translations_truth translations) eqn:Huse.
  - destruct translations as [[|first rest]|];
      try (apply andb_true_iff in Huse as [_ Huse]; discriminate).
    simpl. rewrite lookup_insert_eq. split; [eauto | reflexivity].
  - rewrite bool_decide_eq_false_2 by congruence.
    split; [eauto | reflexivity].
Qed.

(** X15. Asking twice asks once: a call without translations that follows
    any call for the same app changes nothing and sends nothing. *)
Theorem translations_handler_no_second_request self appid translations :
  _translations_handler (_translations_handler self appid translations)
    appid None
  = _translations_handler self appid translations.
Proof.
  destruct (translations_handler_entry self appid translations)
    as [entry Hentry].
  set (self' := _translations_handler self appid translations) in *.
  unfold _translations_handler at 1. simpl. rewrite andb_false_r.
  rewrite bool_decide_eq_false_2 by congruence. reflexivity.
Qed.
End translations_facts.

Lemma translations_handler_keeps_translation_witness :
  _translations_cache (mkTranslationsState {[ 440 := Some "tf2" ]} []) !! 440
  = Some (Some "tf2")
  ∧ translations_sent
      (_translations_handler (mkTranslationsState {[ 440 := Some "tf2" ]} [])
         440 None)
    = [].
Proof.
  assert (Hheld : _translations_cache
                    (mkTranslationsState {[ 440 := Some "tf2" ]} []) !! 440
                  = Some (Some "tf2")) by (vm_compute; reflexivity).
  split; [exact Hheld|].
  exact (proj2 (translations_handler_keeps_translation
                  (mkTranslationsState {[ 440 := Some "tf2" ]} []) 440 None
                  "tf2" Hheld)).
Defined.

(** ** The stats handler *)

Module StatsFacts.
Import StatsHandler.

Lemma unlock_time_loop_spec stats_block_schema block unlock_times :
  ∀ i unlocked,
    unlock_time_loop stats_block_schema block i unlock_times = inr unlocked →
    ∀ u, u ∈ unlocked
         ↔ ∃ j time, unlock_times !! j = Some time
                     ∧ reported stats_block_schema block (i + j) time u.
Proof.
  unfold reported.
  induction unlock_times as [|t rest IH]; intros i unlocked Hrun u; simpl in Hrun.
  - injection Hrun as <-. split; [intros Hin; inversion Hin|].
    intros (j & time & Hj & _). rewrite lookup_nil in Hj. discriminate.
  - assert (Hshift : (∃ j time, rest !! j = Some time
                        ∧ 0 < time ∧ entry_unlock_time u = time
                        ∧ entry_id u = 32 * (block - 1) + Z.of_nat (S i + j)
                        ∧ get_achievement_name stats_block_schema (S i + j)
                          = inr (entry_name u))
                     ↔ ∃ j time, (t :: rest) !! S j = Some time
                        ∧ 0 < time ∧ entry_unlock_time u = time
                        ∧ entry_id u = 32 * (block - 1) + Z.of_nat (i + S j)
                        ∧ get_achievement_name stats_block_schema (i + S j)
                          = inr (entry_name u)).
    { split; intros (j & time & H); exists j, time; simpl in *;
        replace (i + S j)%nat with (S i + j)%nat in * by lia; exact H. }
    destruct (Z.ltb_spec 0 t) as [Hpos|Hnonpos].
    + destruct (get_achievement_name stats_block_schema i) as [[|]|display_name]
        eqn:Hname.
      * rewrite (IH _ _ Hrun u), Hshift. split.
        -- intros (j & time & H). exists (S j), time. exact H.
        -- intros ([|j] & time & Hj & Hrep); [|exists j, time; tauto].
           rewrite Nat.add_0_r in Hrep. destruct Hrep as (_ & _ & _ & Hn).
           congruence.
      * discriminate.
      * destruct (unlock_time_loop stats_block_schema block (S i) rest)
          as [e|later] eqn:Hlater; simpl in Hrun; [discriminate|].
        injection Hrun as <-. rewrite elem_of_cons, (IH _ _ Hlater u), Hshift.
        split.
        -- intros [-> | (j & time & H)].
           ++ exists 0%nat, t. simpl. rewrite Nat.add_0_r. tauto.
           ++ exists (S j), time. exact H.
        -- intros ([|j] & time & Hj & Hrep); [left | right; exists j, time; tauto].
           simpl in Hj. injection Hj as <-. rewrite Nat.add_0_r in Hrep.
           destruct Hrep as (_ & Htime & Hid & Hn). destruct u as [uid ut un].
           simpl in *. congruence.
    + rewrite (IH _ _ Hrun u), Hshift. split.
      * intros (j & time & H). exists (S j), time. exact H.
      * intros ([|j] & time & Hj & Hrep); [|exists j, time; tauto].
        simpl in Hj. injection Hj as <-. lia.
Qed.

Lemma unlock_time_loop_no_key_error stats_block_schema block unlock_times :
  ∀ i, unlock_time_loop stats_block_schema block i unlock_times ≠ inl KeyError.
Proof.
  induction unlock_times as [|t rest IH]; intros i; simpl; [discriminate|].
  destruct (0 <? t); [|apply IH].
  destruct (get_achievement_name stats_block_schema i) as [[|]|display_name];
    [apply IH | discriminate |].
  specialize (IH (S i)).
  destruct (unlock_time_loop stats_block_schema block (S i) rest) as [[|]|later];
    simpl; congruence.
Qed.

(** X16. A [KeyError] never leaves [_stats_handler]: a block or a bit that
    the schema does not describe is skipped. *)
Theorem stats_handler_no_key_error (game_id : string)
    (achievement_blocks : list AchievementBlock) (schema : PyVal) :
  _stats_handler game_id achievement_blocks schema ≠ inl KeyError.
Proof.
  unfold _stats_handler.
  induction achievement_blocks as [|b rest IH]; simpl; [discriminate|].
  destruct (stats_block_schema_of schema game_id (pretty (achievement_id b)))
    as [[|]|stats_block_schema]; [exact IH | discriminate |].
  pose proof (unlock_time_loop_no_key_error stats_block_schema
                (achievement_id b) (unlock_time b) 0) as Hloop.
  destruct (unlock_time_loop stats_block_schema (achievement_id b) 0
              (unlock_time b)) as [[|]|unlocked]; simpl; try congruence.
  destruct (achievement_blocks_loop schema game_id rest) as [[|]|later];
    simpl; congruence.
Qed.


(** X18. The handler treats the blocks one after the other: on two runs
    of blocks put together it reports what it reports on the first run
    followed by what it reports on the second, and it raises as soon as
    one of them does. *)
Theorem stats_handler_app (game_id : string)
    (blocks1 blocks2 : list AchievementBlock) (schema : PyVal) :
  _stats_handler game_id (blocks1 ++ blocks2) schema
  = (unlocked1 ← _stats_handler game_id blocks1 schema;
     unlocked2 ← _stats_handler game_id blocks2 schema;
     inr (unlocked1 ++ unlocked2)).
Proof.
  unfold _stats_handler.
  induction blocks1 as [|b rest IH]; simpl.
  - destruct (achievement_blocks_loop schema game_id blocks2); reflexivity.
  - destruct (stats_block_schema_of schema game_id (pretty (achievement_id b)))
      as [[|]|stats_block_schema]; [exact IH | reflexivity |].
    destruct (unlock_time_loop stats_block_schema (achievement_id b) 0
                (unlock_time b)) as [e|unlocked]; simpl; [reflexivity|].
    rewrite IH.
    destruct (achievement_blocks_loop schema game_id rest) as [e|later];
      simpl; [reflexivity|].
    destruct (achievement_blocks_loop schema game_id blocks2) as [e|later2];
      simpl; [reflexivity|].
    rewrite app_assoc. reflexivity.
Qed.

Lemma unlock_time_loop_ids_nodup stats_block_schema block unlock_times :
  ∀ i unlocked,
    unlock_time_loop stats_block_schema block i unlock_times = inr unlocked →
    NoDup (entry_id <$> unlocked).
Proof.
  induction unlock_times as [|t rest IH]; intros i unlocked Hrun; simpl in Hrun.
  - injection Hrun as <-. constructor.
  - destruct (0 <? t); [|eapply IH; exact Hrun].
    destruct (get_achievement_name stats_block_schema i) as [[|]|display_name];
      [eapply IH; exact Hrun | discriminate |].
    destruct (unlock_time_loop stats_block_schema block (S i) rest)
      as [e|later] eqn:Hlater; simpl in Hrun; [discriminate|].
    injection Hrun as <-. rewrite fmap_cons. constructor.
    + simpl. intros Hin. apply list_elem_of_fmap in Hin as (u & Hid & Hu).
      apply (unlock_time_loop_spec _ _ _ _ _ Hlater u) in Hu
        as (j & time & _ & _ & _ & Hid' & _).
      lia.
    + eapply IH. exact Hlater.
Qed.

(** X19. When the blocks have distinct ids and at most 32 bits each, the
    reported achievements have distinct ids. *)
Theorem stats_handler_ids_distinct (game_id : string)
    (achievement_blocks : list AchievementBlock) (schema : PyVal)
    (achievements_unlocked : list Unlocked) :
  _stats_handler game_id achievement_blocks schema = inr achievements_unlocked →
  NoDup (achievement_id <$> achievement_blocks) →
  (∀ block, block ∈ achievement_blocks → (length (unlock_time block) ≤ 32)%nat) →
  NoDup (entry_id <$> achievements_unlocked).
Proof.
  unfold _stats_handler. revert achievements_unlocked.
  induction achievement_blocks as [|b rest IH]; intros l Hrun Hblocks Hbits;
    simpl in Hrun.
  - injection Hrun as <-. constructor.
  - rewrite fmap_cons in Hblocks. apply NoDup_cons in Hblocks as [Hb Hblocks].
    assert (Hbits' : ∀ block, block ∈ rest → (length (unlock_time block) ≤ 32)%nat).
    { intros block Hin. apply Hbits. right. exact Hin. }
    destruct (stats_block_schema_of schema game_id (pretty (achievement_id b)))
      as [[|]|stats_block_schema] eqn:Hschema;
      [apply IH; assumption | discriminate |].
    destruct (unlock_time_loop stats_block_schema (achievement_id b) 0
                (unlock_time b)) as [e|unlocked] eqn:Hloop;
      simpl in Hrun; [discriminate|].
    destruct (achievement_blocks_loop schema game_id rest) as [e|later]
      eqn:Hlater; simpl in Hrun; [discriminate|].
    injection Hrun as <-. rewrite fmap_app. apply NoDup_app.
    split; [eapply unlock_time_loop_ids_nodup; exact Hloop|].
    split; [|apply IH; [reflexivity | assumption | assumption]].
    intros x Hx1 Hx2.
    apply list_elem_of_fmap in Hx1 as (u1 & -> & Hu1).
    apply list_elem_of_fmap in Hx2 as (u2 & Hid & Hu2).
    apply (unlock_time_loop_spec _ _ _ _ _ Hloop u1) in Hu1
      as (j1 & t1 & Hj1 & _ & _ & Hid1 & _).
    assert (Hrest : ∃ block j, block ∈ rest
                      ∧ (j < length (unlock_time block))%nat
                      ∧ entry_id u2 = 32 * (achievement_id block - 1) + Z.of_nat j).
    { clear -Hlater Hu2. revert later Hlater Hu2.
      induction rest as [|b' rest' IH']; intros later Hlater Hu2;
        simpl in Hlater.
      - injection Hlater as <-. inversion Hu2.
      - destruct (stats_block_schema_of schema game_id
                    (pretty (achievement_id b'))) as [[|]|s'].
        + destruct (IH' _ Hlater Hu2) as (block & j & Hin & H).
          exists block, j. split; [right; exact Hin | exact H].
        + discriminate.
        + destruct (unlock_time_loop s' (achievement_id b') 0 (unlock_time b'))
            as [e|unlocked'] eqn:Hloop'; simpl in Hlater; [discriminate|].
          destruct (achievement_blocks_loop schema game_id rest')
            as [e|later'] eqn:Hlater'; simpl in Hlater; [discriminate|].
          injection Hlater as <-. apply elem_of_app in Hu2 as [Hu2|Hu2].
          * apply (unlock_time_loop_spec _ _ _ _ _ Hloop' u2) in Hu2
              as (j & t & Hj & _ & _ & Hid & _).
            exists b', j. split; [left|].
            split; [eapply lookup_lt_Some; exact Hj | exact Hid].
          * destruct (IH' _ eq_refl Hu2) as (block & j & Hin & H).
            exists block, j. split; [right; exact Hin | exact H]. }
    destruct Hrest as (block & j2 & Hin & Hj2 & Hid2).
    apply lookup_lt_Some in Hj1.
    pose proof (Hbits b ltac:(left)) as Hb32.
    pose proof (Hbits' block Hin) as Hblock32.
    assert (achievement_id b = achievement_id block) by (simpl in *; lia).
    apply Hb. apply list_elem_of_fmap. exists block. split; assumption.
Qed.

(** A schema with one block of two bits, the second of them with a plain
    string for a name, and a reply whose block has both bits unlocked and
    a third bit that the schema does not know. *)
Example stats_handler_sample :
  _stats_handler "570"
    [ mkAchievementBlock 2 [ 1500000000; 1500000001; 1500000002 ];
      mkAchievementBlock 9 [ 1500000003 ] ]
    (VDict [ ("570", VDict [ ("stats", VDict [ ("2", VDict [ ("bits", VDict
       [ ("0", VDict [ ("display", VDict [ ("name",
            VDict [ ("english", VStr "First Blood") ]) ]) ]);
         ("1", VDict [ ("display", VDict [ ("name", VStr "Rampage") ]) ])
       ]) ]) ]) ]) ])
  = inr [ mkUnlocked 32 1500000000 (VStr "First Blood");
          mkUnlocked 33 1500000001 (VStr "Rampage") ].
Proof. vm_compute. reflexivity. Qed.


Lemma stats_handler_ids_distinct_witness :
  _stats_handler "570"
    [ mkAchievementBlock 1 [ 5; 6 ]; mkAchievementBlock 2 [ 7 ] ]
    (VDict [ ("570", VDict [ ("stats", VDict
       [ ("1", VDict [ ("bits", VDict
            [ ("0", VDict [ ("display", VDict [ ("name", VStr "a") ]) ]);
              ("1", VDict [ ("display", VDict [ ("name", VStr "b") ]) ]) ]) ]);
         ("2", VDict [ ("bits", VDict
            [ ("0", VDict [ ("display", VDict [ ("name", VStr "c") ]) ]) ]) ])
       ]) ]) ])
  = inr [ mkUnlocked 0 5 (VStr "a"); mkUnlocked 1 6 (VStr "b");
          mkUnlocked 32 7 (VStr "c") ]
  ∧ NoDup [ 0; 1; 32 ].
Proof.
  assert (Hrun : _stats_handler "570"
    [ mkAchievementBlock 1 [ 5; 6 ]; mkAchievementBlock 2 [ 7 ] ]
    (VDict [ ("570", VDict [ ("stats", VDict
       [ ("1", VDict [ ("bits", VDict
            [ ("0", VDict [ ("display", VDict [ ("name", VStr "a") ]) ]);
              ("1", VDict [ ("display", VDict [ ("name", VStr "b") ]) ]) ]) ]);
         ("2", VDict [ ("bits", VDict
            [ ("0", VDict [ ("display", VDict [ ("name", VStr "c") ]) ]) ]) ])
       ]) ]) ])
    = inr [ mkUnlocked 0 5 (VStr "a"); mkUnlocked 1 6 (VStr "b");
            mkUnlocked 32 7 (VStr "c") ])
    by (vm_compute; reflexivity).
  split; [exact Hrun|].
  refine (stats_handler_ids_distinct _ _ _ _ Hrun _ _).
  - compute_done.
  - intros block Hin. repeat (apply elem_of_cons in Hin as [-> | Hin]);
      [simpl; lia | simpl; lia | inversion Hin].
Defined.
End StatsFacts.

(** ** Cookies and owned games *)

Module PluginFacts.
Import Plugin.

Section cookies_facts.
Variable legal_key : string → bool.

(** Lookups in a dict that is written out key by key. *)
Ltac lookup_literal :=
  repeat first
    [ rewrite lookup_insert_eq
    | rewrite lookup_singleton_eq
    | rewrite lookup_insert_ne by discriminate
    | rewrite lookup_singleton_ne by discriminate
    | rewrite lookup_empty ].

(** Reading back the dict that [morsels_to_dicts] writes for a morsel. *)
Lemma dict_to_morsel_of_morsel (morsel : Morsel) :
  dict_to_morsel legal_key
    ({[ "name" := key morsel; "value" := value morsel;
        "domain" := domain morsel; "path" := path morsel ]})
  = if legal_key (key morsel)
    then inr (mkMorsel (key morsel) (value morsel) (value morsel)
                (domain morsel) (path morsel))
    else inl CookieError.
Proof.
  unfold dict_to_morsel. lookup_literal. reflexivity.
Qed.

Lemma dict_to_morsel_inr cookie morsel :
  dict_to_morsel legal_key cookie = inr morsel →
  legal_key (key morsel) = true ∧ coded_value morsel = value morsel.
Proof.
  unfold dict_to_morsel.
  destruct (cookie !! "name") as [name|]; [|discriminate].
  destruct (cookie !! "value") as [val|]; [|discriminate].
  destruct (legal_key name) eqn:Hlegal; [|discriminate].
  intros Heq. injection Heq as <-. simpl. split; [exact Hlegal | reflexivity].
Qed.

Lemma morsels_read_back (cookies : list (gmap string string))
    (morsels : list Morsel) :
  dicts_to_morsels legal_key cookies = inr morsels →
  dicts_to_morsels legal_key (morsels_to_dicts morsels) = inr morsels.
Proof.
  unfold morsels_to_dicts. revert morsels.
  induction cookies as [|cookie rest IH]; intros morsels Hparse;
    simpl in Hparse.
  - injection Hparse as <-. reflexivity.
  - destruct (dict_to_morsel legal_key cookie) as [e|m] eqn:Hm;
      simpl in Hparse; [discriminate|].
    destruct (dicts_to_morsels legal_key rest) as [e|ms] eqn:Hms;
      simpl in Hparse; [discriminate|].
    injection Hparse as <-. rewrite fmap_cons. simpl.
    rewrite dict_to_morsel_of_morsel.
    destruct (dict_to_morsel_inr cookie m Hm) as [-> Hcoded]. simpl.
    rewrite (IH ms eq_refl). simpl.
    destruct m; simpl in *; subst; reflexivity.
Qed.

(** X20. Credentials survive being stored: the dicts that
    [morsels_to_dicts] writes for the morsels of a login are parsed back
    by [parse_stored_cookies] into the same morsels. *)
Theorem stored_cookies_round_trip (cookies : list (gmap string string))
    (morsels : list Morsel) :
  dicts_to_morsels legal_key cookies = inr morsels →
  parse_stored_cookies legal_key (stored_list (morsels_to_dicts morsels))
  = inr morsels.
Proof.
  intros Hparse. unfold parse_stored_cookies.
  eapply morsels_read_back. exact Hparse.
Qed.

(** X22. Credentials in the older format, one dict from names to values,
    never raise a [KeyError]: they are parsed into one morsel per item,
    with empty domain and path, unless a name is not a legal key. *)
Theorem parse_stored_dict (items : list (string * string)) :
  parse_stored_cookies legal_key (stored_dict items)
  = if forallb (λ item, legal_key item.1) items
    then inr ((λ item, mkMorsel item.1 item.2 item.2 "" "") <$> items)
    else inl CookieError.
Proof.
  unfold parse_stored_cookies.
  induction items as [|[k v] rest IH]; csimpl; [reflexivity|].
  unfold dict_to_morsel at 1. lookup_literal. csimpl.
  destruct (legal_key k); csimpl; [|reflexivity].
  rewrite IH. destruct (forallb (λ item, legal_key item.1) rest); reflexivity.
Qed.
End cookies_facts.

Section owned_games_facts.
Variable get_games : string → Exc + list (gmap string Scalar).

Lemma any_appid_true {A} (proj : A → string) game (l : list A) :
  any_appid proj game l = inr true →
  ∃ appid, game !! "appid" = Some appid
           ∧ existsb (λ f, bool_decide (proj f = str_of appid)) l = true.
Proof.
  unfold any_appid. destruct l as [|x l']; [discriminate|].
  destruct (game !! "appid") as [appid|]; [|discriminate].
  intros Heq. injection Heq as Heq. exists appid. split; [reflexivity | exact Heq].
Qed.

Lemma hasit_true owngames game :
  hasit owngames [] game = inr true →
  ∃ appid, game !! "appid" = Some appid ∧ str_of appid ∈ owngames.
Proof.
  unfold hasit.
  destruct (any_appid (λ f, f) game owngames) as [e|[|]] eqn:Hown; simpl;
    [discriminate | | discriminate].
  intros _. apply any_appid_true in Hown as (appid & Happid & Hex).
  exists appid. split; [exact Happid|].
  apply existsb_exists in Hex as (f & Hf & Heq).
  apply bool_decide_eq_true in Heq. subst f. apply list_elem_of_In. exact Hf.
Qed.

Lemma sharing_games_loop_nil owngames othergames newgames :
  sharing_games_loop owngames [] othergames = inr newgames →
  newgames = []
  ∧ ∀ game, game ∈ othergames →
            ∃ appid, game !! "appid" = Some appid ∧ str_of appid ∈ owngames.
Proof.
  induction othergames as [|game rest IH]; simpl; intros Hrun.
  - injection Hrun as <-. split; [reflexivity|]. intros game Hin. inversion Hin.
  - destruct (hasit owngames [] game) as [e|[|]] eqn:Hhas; [destruct e| |];
      simpl in Hrun; try discriminate.
    destruct (IH Hrun) as [-> Hrest]. split; [reflexivity|].
    intros game' Hin. apply elem_of_cons in Hin as [-> | Hin]; [|auto].
    apply hasit_true. exact Hhas.
Qed.

Lemma sharing_profiles_loop_nil owngames profiles newgames :
  sharing_profiles_loop get_games owngames [] profiles = inr newgames →
  newgames = [].
Proof.
  induction profiles as [|i rest IH]; simpl; intros Hrun.
  - injection Hrun as <-. reflexivity.
  - destruct (get_games (user_id i)) as [e|othergames]; simpl in Hrun;
      [discriminate|].
    destruct (sharing_games_loop owngames [] othergames) as [e|found] eqn:Hloop;
      simpl in Hrun; [discriminate|].
    apply sharing_games_loop_nil in Hloop as [-> _]. apply IH. exact Hrun.
Qed.

(** X23. [get_steam_sharing_games] never lists a game. When it returns,
    it returns the empty list; a game of a sharing friend that the user
    does not own makes it raise [AttributeError] instead of being
    listed. *)
Theorem sharing_games_never_listed (self : OwnedState) (owngames : list string)
    (newgames : list Game) :
  (get_steam_sharing_games get_games self owngames).2 = inr newgames →
  newgames = [].
Proof.
  unfold get_steam_sharing_games. simpl. apply sharing_profiles_loop_nil.
Qed.

Lemma own_games_loop_single games owned_games :
  own_games_loop games = inr owned_games →
  length owned_games = length games
  ∧ ∀ game, game ∈ owned_games →
            license_type game = SinglePurchase ∧ license_owner game = None.
Proof.
  revert owned_games.
  induction games as [|game rest IH]; intros owned Hrun; simpl in Hrun.
  - injection Hrun as <-. split; [reflexivity|]. intros g Hin. inversion Hin.
  - destruct (game !! "appid") as [appid|]; [|discriminate].
    destruct (game !! "name") as [name|]; [|discriminate].
    destruct (own_games_loop rest) as [e|later]; simpl in Hrun; [discriminate|].
    injection Hrun as <-. destruct (IH later eq_refl) as [Hlen Hall].
    split; [simpl; rewrite Hlen; reflexivity|].
    intros g Hin. apply elem_of_cons in Hin as [-> | Hin]; [split; reflexivity|].
    apply Hall, Hin.
Qed.

(** X24. When [get_owned_games] returns, it lists the games of the
    backend answer for the user, one per entry and all of them as single
    purchases: a game shared by a friend is never among them. It has then
    recorded the backend answer as the own games. *)
Theorem get_owned_games_lists_own_games (self : OwnedState)
    (owned_games : list Game) :
  (get_owned_games get_games self).2 = inr owned_games →
  ∃ steam_id games,
    _steam_id self = Some steam_id
    ∧ get_games steam_id = inr games
    ∧ own_games_loop games = inr owned_games
    ∧ _own_games (get_owned_games get_games self).1 = games
    ∧ length owned_games = length games
    ∧ ∀ game, game ∈ owned_games → license_type game = SinglePurchase.
Proof.
  unfold get_owned_games.
  destruct (_steam_id self) as [steam_id|] eqn:Hid; [|discriminate].
  destruct (get_games steam_id) as [e|games] eqn:Hget; [discriminate|].
  destruct (own_games_loop games) as [e|own] eqn:Hown; [discriminate|].
  destruct (get_steam_sharing_games get_games _ (game_id <$> own))
    as [self' [e|other]] eqn:Hshare; simpl; [discriminate|].
  intros Hret. injection Hret as <-.
  assert (other = []) as ->.
  { unfold get_steam_sharing_games in Hshare. injection Hshare as _ Hloop.
    eapply sharing_profiles_loop_nil. exact Hloop. }
  rewrite app_nil_r.
  destruct (own_games_loop_single games own Hown) as [Hlen Hall].
  exists steam_id, games. split; [reflexivity|]. split; [exact Hget|].
  split; [exact Hown|]. split.
  - unfold get_steam_sharing_games in Hshare. injection Hshare as <- _.
    reflexivity.
  - split; [exact Hlen|]. intros game Hin. apply Hall, Hin.
Qed.
End owned_games_facts.

Example shared_game_raises :
  (get_owned_games sample_get_games
     (mkOwnedState (Some "me") [] [] [ mkFriendInfo "friend" "bob!" ])).2
  = inl AttributeError.
Proof. vm_compute. reflexivity. Qed.

Example owned_games_without_sharing_friend :
  (get_owned_games sample_get_games
     (mkOwnedState (Some "me") [] [] [ mkFriendInfo "friend" "bob" ])).2
  = inr [ mkGame "440" (SText "Team Fortress 2") SinglePurchase None ].
Proof. vm_compute. reflexivity. Qed.

Lemma stored_cookies_round_trip_witness :
  dicts_to_morsels (λ _, true)
    [ {[ "name" := "steamLoginSecure"; "value" := "abc" ]} ]
  = inr [ mkMorsel "steamLoginSecure" "abc" "abc" "" "" ]
  ∧ parse_stored_cookies (λ _, true)
      (stored_list
         (morsels_to_dicts [ mkMorsel "steamLoginSecure" "abc" "abc" "" "" ]))
    = inr [ mkMorsel "steamLoginSecure" "abc" "abc" "" "" ].
Proof.
  assert (Hparse : dicts_to_morsels (λ _, true)
                     [ {[ "name" := "steamLoginSecure"; "value" := "abc" ]} ]
                   = inr [ mkMorsel "steamLoginSecure" "abc" "abc" "" "" ])
    by (vm_compute; reflexivity).
  split; [exact Hparse|].
  exact (stored_cookies_round_trip (λ _, true) _ _ Hparse).
Defined.

Lemma sharing_games_never_listed_witness :
  (get_steam_sharing_games sample_get_games
     (mkOwnedState (Some "me") [] [ "old" ] [ mkFriendInfo "friend" "bob!" ])
     [ "440"; "570" ]).2 = inr [].
Proof.
  destruct (get_steam_sharing_games sample_get_games
     (mkOwnedState (Some "me") [] [ "old" ] [ mkFriendInfo "friend" "bob!" ])
     [ "440"; "570" ]) as [self' [e|newgames]] eqn:Hrun.
  - vm_compute in Hrun. discriminate.
  - simpl. f_equal.
    apply (sharing_games_never_listed sample_get_games
             (mkOwnedState (Some "me") [] [ "old" ] [ mkFriendInfo "friend" "bob!" ])
             [ "440"; "570" ]).
    rewrite Hrun. reflexivity.
Defined.

Lemma get_owned_games_lists_own_games_witness :
  (get_owned_games sample_get_games
     (mkOwnedState (Some "me") [] [] [ mkFriendInfo "friend" "bob" ])).2
  = inr [ mkGame "440" (SText "Team Fortress 2") SinglePurchase None ]
  ∧ length [ mkGame "440" (SText "Team Fortress 2") SinglePurchase None ] = 1%nat.
Proof.
  assert (Hrun : (get_owned_games sample_get_games
     (mkOwnedState (Some "me") [] [] [ mkFriendInfo "friend" "bob" ])).2
    = inr [ mkGame "440" (SText "Team Fortress 2") SinglePurchase None ])
    by (vm_compute; reflexivity).
  split; [exact Hrun|].
  destruct (get_owned_games_lists_own_games sample_get_games _ _ Hrun)
    as (steam_id & games & _ & _ & _ & _ & Hlen & _).
  reflexivity.
Defined.
End PluginFacts.

(** ** Achievements: failure, reuse and completion *)

Section achievements_more.
Variable client_get_achievements : string → outcome (list (Z * string)).

(** X25. When the backend fails, [get_unlocked_achievements] raises what
    the backend raised and leaves the achievements cache and its
    updated flag as they were. *)
Theorem backend_failure_keeps_cache (self : SteamPlugin) (game_id : string)
    (context : gmap string GameTime) (game_time : GameTime) (e : PyExc) :
  context !! game_id = Some game_time →
  time_played game_time ≠ 0 →
  Cache.get (_achievements_cache self) game_id
    (mkFingerprint (last_played_time game_time) (time_played game_time)) = None →
  client_get_achievements game_id = Raise e →
  (get_unlocked_achievements client_get_achievements self game_id context).2
  = Raise e
  ∧ _achievements_cache
      (get_unlocked_achievements client_get_achievements self game_id context).1
    = _achievements_cache self
  ∧ _achievements_cache_updated
      (get_unlocked_achievements client_get_achievements self game_id context).1
    = _achievements_cache_updated self.
Proof.
  intros Hctx Hplayed Hmiss Hfail.
  unfold get_unlocked_achievements, get_game_time, _get_achievements.
  rewrite Hctx. apply Z.eqb_neq in Hplayed. rewrite Hplayed, Hmiss. simpl.
  rewrite Hfail. simpl. split; [reflexivity|]. split; reflexivity.
Qed.

(** X26. What was returned once is returned again without a fetch: after
    a call that returned for a played game, a second call with the same
    context returns the same achievements, consults the cache and does
    nothing else. *)
Theorem second_call_uses_cache (self self1 : SteamPlugin) (game_id : string)
    (context : gmap string GameTime) (game_time : GameTime)
    (achievements : list Achievement) :
  context !! game_id = Some game_time →
  time_played game_time ≠ 0 →
  get_unlocked_achievements client_get_achievements self game_id context
  = (self1, Return achievements) →
  get_unlocked_achievements client_get_achievements self1 game_id context
  = (mkSteamPlugin (_achievements_cache self1) (_achievements_cache_updated self1)
       (plugin_events self1
          ++ [cache_get game_id
                (mkFingerprint (last_played_time game_time)
                   (time_played game_time))]),
     Return achievements).
Proof.
  intros Hctx Hplayed.
  unfold get_unlocked_achievements, get_game_time, _get_achievements.
  rewrite Hctx. apply Z.eqb_neq in Hplayed. rewrite Hplayed.
  set (fp := mkFingerprint (last_played_time game_time) (time_played game_time)).
  destruct (Cache.get (_achievements_cache self) game_id fp) as [cached|]
    eqn:Hget; simpl.
  - intros Hfirst. injection Hfirst as <- <-. simpl. rewrite Hget. reflexivity.
  - destruct (client_get_achievements game_id) as [fetched|e]; simpl;
      [|discriminate].
    destruct (new_Achievements fetched) as [built|e]; simpl; [|discriminate].
    intros Hfirst. injection Hfirst as <- <-. simpl.
    rewrite cache_get_update_eq. reflexivity.
Qed.

(** The cache is pushed once per update: after a call that fetched
    from the backend, [achievements_import_complete] pushes the cache, and
    a second completion right after it does not. *)
Lemma import_complete_pushes_once (self self1 : SteamPlugin) (game_id : string)
    (context : gmap string GameTime) (achievements : list Achievement) :
  get_unlocked_achievements client_get_achievements self game_id context
  = (self1, Return achievements) →
  backend_get_achievements game_id ∈ plugin_events self1 →
  backend_get_achievements game_id ∉ plugin_events self →
  (achievements_import_complete self1).2 = true
  ∧ (achievements_import_complete (achievements_import_complete self1).1).2
    = false
  ∧ _achievements_cache (achievements_import_complete self1).1
    = _achievements_cache self1.
Proof.
  unfold get_unlocked_achievements, get_game_time, _get_achievements.
  destruct (context !! game_id) as [game_time|]; [|discriminate].
  destruct (time_played game_time =? 0).
  { intros Hfirst Hin Hnot. injection Hfirst as <- _. contradiction. }
  destruct (Cache.get _ _ _) as [cached|]; simpl.
  { intros Hfirst Hin Hnot. injection Hfirst as <- _. simpl in Hin.
    apply elem_of_app in Hin as [Hin|Hin]; [contradiction|].
    apply list_elem_of_singleton in Hin. discriminate. }
  destruct (client_get_achievements game_id) as [fetched|e]; simpl;
    [|discriminate].
  destruct (new_Achievements fetched) as [built|e]; simpl; [|discriminate].
  intros Hfirst _ _. injection Hfirst as <- _.
  unfold achievements_import_complete. simpl. split; [reflexivity|].
  split; reflexivity.
Qed.
End achievements_more.

Lemma backend_failure_keeps_cache_witness :
  sample_context !! "570" = Some (mkGameTime "570" 120 (Some 1600000000))
  ∧ (get_unlocked_achievements (λ _, Raise (CollaboratorError 503))
       sample_plugin "570" sample_context).2
    = Raise (CollaboratorError 503).
Proof.
  assert (Hctx : sample_context !! "570"
                 = Some (mkGameTime "570" 120 (Some 1600000000)))
    by (vm_compute; reflexivity).
  split; [exact Hctx|].
  refine (proj1 (backend_failure_keeps_cache (λ _, Raise (CollaboratorError 503))
                   sample_plugin "570" sample_context _ (CollaboratorError 503)
                   Hctx _ _ eq_refl)).
  - simpl. lia.
  - vm_compute. reflexivity.
Defined.

Lemma second_call_uses_cache_witness :
  sample_context !! "570" = Some (mkGameTime "570" 120 (Some 1600000000))
  ∧ (get_unlocked_achievements sample_backend
       (get_unlocked_achievements sample_backend sample_plugin "570"
          sample_context).1 "570" sample_context).2
    = Return [ mkAchievement 1500000000 None (Some "First Blood") ].
Proof.
  assert (Hctx : sample_context !! "570"
                 = Some (mkGameTime "570" 120 (Some 1600000000)))
    by (vm_compute; reflexivity).
  split; [exact Hctx|].
  destruct (get_unlocked_achievements sample_backend sample_plugin "570"
              sample_context) as [self1 out] eqn:Hfirst.
  assert (Hout : out = Return [ mkAchievement 1500000000 None (Some "First Blood") ]).
  { vm_compute in Hfirst. injection Hfirst as _ <-. reflexivity. }
  subst out. simpl.
  rewrite (second_call_uses_cache sample_backend sample_plugin self1 "570"
             sample_context _ _ Hctx ltac:(simpl; lia) Hfirst).
  reflexivity.
Defined.

Lemma import_complete_pushes_once_witness :
  (achievements_import_complete
     (get_unlocked_achievements sample_backend sample_plugin "570"
        sample_context).1).2 = true.
Proof.
  destruct (get_unlocked_achievements sample_backend sample_plugin "570"
              sample_context) as [self1 out] eqn:Hfirst.
  assert (Hout : out = Return [ mkAchievement 1500000000 None (Some "First Blood") ]).
  { vm_compute in Hfirst. injection Hfirst as _ <-. reflexivity. }
  subst out. simpl.
  refine (proj1 (import_complete_pushes_once sample_backend sample_plugin self1
                   "570" sample_context _ Hfirst _ _)).
  - vm_compute in Hfirst. injection Hfirst as <-. set_solver.
  - simpl. set_solver.
Defined.

(** ** The login handler and the stored steam id *)

(** X27. A successful login reply records the steam id of the message in
    the user info cache whether or not a login future is pending, so
    also when the handler raises; any other reply leaves the recorded id
    as it was. *)
Theorem login_handler_records_steam_id `{EResultCodes} (self : LoginState)
    (result : Z) (message : BeginAuthSessionResponse) :
  user_info_steam_id (_login_handler self result message).1
  = if result =? EResult_OK then Some (steamid message)
    else user_info_steam_id self.
Proof.
  unfold _login_handler. destruct self as [sid fut].
  destruct (result =? EResult_OK); simpl.
  - destruct (decide (sid ≠ Some (steamid message))) as [Hne|Heq]; simpl.
    + destruct fut as [[|first]|]; reflexivity.
    + apply dec_stable in Heq. subst sid.
      destruct fut as [[|first]|]; reflexivity.
  - destruct fut as [[|first]|]; reflexivity.
Qed.

(** ** Public profiles: when a check succeeds *)

(** X28. A public-profile check returns [True] exactly when the response
    was received and parsed, it carries no error text, and its first game
    element has child elements. A game element without children counts as
    no game. *)
Theorem verify_is_public_true (http_get_text : string → outcome string)
    (fromstring : string → outcome Element) (url : string) :
  (_verify_is_public http_get_text fromstring url).2 = Return true
  ↔ ∃ text root game,
      http_get_text url = Return text
      ∧ fromstring text = Return root
      ∧ from_option str_truth false (find_child "error" root ≫= text_of) = false
      ∧ find_games_game root = Some game
      ∧ children_of game ≠ [].
Proof.
  unfold _verify_is_public. simpl. split.
  - destruct (http_get_text url) as [text|e] eqn:Hget; simpl; [|discriminate].
    destruct (fromstring text) as [root|e] eqn:Hparse; simpl; [|discriminate].
    unfold verify_root.
    destruct (from_option str_truth false (find_child "error" root ≫= text_of))
      eqn:Herr.
    { repeat match goal with
             | |- context [if ?b then _ else _] => destruct b
             end; discriminate. }
    destruct (find_games_game root) as [game|] eqn:Hgame; simpl; [|discriminate].
    unfold element_truth.
    destruct (bool_decide_reflect (children_of game = [])) as [Hnil|Hchildren];
      simpl; [discriminate|].
    intros _. exists text, root, game.
    split; [reflexivity|]. split; [exact Hparse|]. split; [exact Herr|].
    split; [exact Hgame | exact Hchildren].
  - intros (text & root & game & -> & Hparse & Herr & Hgame & Hchildren). simpl.
    rewrite Hparse. simpl. unfold verify_root. rewrite Herr, Hgame. simpl.
    unfold element_truth. rewrite bool_decide_eq_false_2 by exact Hchildren.
    reflexivity.
Qed.

(** ** The Witcher 3 rule and the DLC identifiers *)

Lemma w3_components_owned (owned_dlc_app_ids : gset string) :
  does_witcher_3_dlcs_set_resolve_to_GOTY owned_dlc_app_ids = true
  ↔ W3_EXPANSION_PASS ∈ owned_dlc_app_ids
    ∨ W3_DLCS_GOTY_COMPONENTS ⊆ owned_dlc_app_ids.
Proof.
  unfold does_witcher_3_dlcs_set_resolve_to_GOTY.
  rewrite orb_true_iff, !bool_decide_eq_true, size_empty_iff.
  split; (intros [Hpass | Hcomp]; [left; exact Hpass | right]).
  - intros x Hx. destruct (decide (x ∈ owned_dlc_app_ids)); [assumption|].
    exfalso. apply (not_elem_of_empty (C := gset string) x).
    apply Hcomp. apply elem_of_difference. split; assumption.
  - intros x. split; [|intros Hx; exfalso; exact (not_elem_of_empty x Hx)].
    intros Hx. apply elem_of_difference in Hx as [Hx Hnot].
    exfalso. apply Hnot, Hcomp, Hx.
Qed.

(** X29. Owning more never loses the Game of the Year edition: if a set
    of DLCs resolves to it, so does every set that contains that set. *)
Theorem w3_resolution_monotone (owned more : gset string) :
  owned ⊆ more →
  does_witcher_3_dlcs_set_resolve_to_GOTY owned = true →
  does_witcher_3_dlcs_set_resolve_to_GOTY more = true.
Proof.
  intros Hsub. rewrite !w3_components_owned.
  intros [Hpass | Hcomp]; [left; apply Hsub, Hpass | right].
  intros x Hx. apply Hsub, Hcomp, Hx.
Qed.

(** X30. Only the three Witcher 3 DLC identifiers count: a set of owned
    DLCs resolves to the Game of the Year edition exactly when its part
    within [WITCHER_3_DLCS_APP_IDS] does. *)
Theorem w3_resolution_only_dlc_ids (owned_dlc_app_ids : gset string) :
  does_witcher_3_dlcs_set_resolve_to_GOTY owned_dlc_app_ids
  = does_witcher_3_dlcs_set_resolve_to_GOTY
      (owned_dlc_app_ids ∩ list_to_set WITCHER_3_DLCS_APP_IDS).
Proof.
  apply eq_true_iff_eq. rewrite !w3_components_owned.
  unfold W3_EXPANSION_PASS, W3_DLCS_GOTY_COMPONENTS, WITCHER_3_DLCS_APP_IDS.
  split; (intros [Hpass | Hcomp]; [left | right]); set_solver.
Qed.

Lemma w3_resolution_monotone_witness :
  ({[ "355880" ]} : gset string) ⊆ {[ "355880"; "292030" ]}
  ∧ does_witcher_3_dlcs_set_resolve_to_GOTY {[ "355880" ]} = true
  ∧ does_witcher_3_dlcs_set_resolve_to_GOTY {[ "355880"; "292030" ]} = true.
Proof.
  assert (Hsub : ({[ "355880" ]} : gset string) ⊆ {[ "355880"; "292030" ]})
    by set_solver.
  assert (Hres : does_witcher_3_dlcs_set_resolve_to_GOTY {[ "355880" ]} = true)
    by (vm_compute; reflexivity).
  split; [exact Hsub|]. split; [exact Hres|].
  exact (w3_resolution_monotone _ _ Hsub Hres).
Defined.
